(** * MAS_Hybrid_QA: the table tools and the routing graph

    A shallow embedding of [src/agent/utils.py], [src/agent/tools.py],
    [src/agent/planner.py], [src/agent/table_agent.py],
    [src/agent/analysis_agent.py] and [src/agent/graph.py].

    Python values are embedded as follows.
    - [str] is [string]; [int] is [Z]; positions produced by [enumerate]
      are [nat] and are injected into [Z] where they index a list.
    - An exception is a value of [exn]; a computation that may raise is a
      [result]. [try ... except ValueError] is [try_except_ValueError].
    - [Storage.tables] (uid -> path) and the files behind the paths are
      finite maps.
    - A [dict] literal returned by a tool is an association list in the
      order the literal is written; [conditions] is an association list
      in the dict's iteration order.
    - The language model and the two compiled agents are parameters. *)

From stdpp Require Import gmap strings list fin_maps sorting.
From Stdlib Require Import ZArith Lia.

Local Open Scope string_scope.
Local Open Scope Z_scope.

(** ** Exceptions *)

Inductive exn : Type :=
| ValueError (msg : string)
| IndexError
| KeyError (key : string)
| FileNotFoundError (path : string)
| ValidationError (msg : string).

Inductive result (A : Type) : Type :=
| Return (a : A)
| Raise (e : exn).

Arguments Return {A} a.
Arguments Raise {A} e.

#[global] Instance result_ret : MRet result := fun _ a => Return a.

#[global] Instance result_bind : MBind result := fun _ _ f m =>
  match m with
  | Return a => f a
  | Raise e => Raise e
  end.

(** [try: body except ValueError as e: handler(str(e))]; every other
    exception propagates. *)
Definition try_except_ValueError {A} (body : result A)
    (handler : string → result A) : result A :=
  match body with
  | Raise (ValueError msg) => handler msg
  | other => other
  end.

(** [l[i]] on a Python list: a negative index counts from the end, and an
    index outside [-len(l), len(l))] raises IndexError. *)
Definition py_getitem {A} (l : list A) (i : Z) : result A :=
  let n := Z.of_nat (length l) in
  let j := if i <? 0 then i + n else i in
  if (j <? 0) || (n <=? j) then Raise IndexError
  else match l !! Z.to_nat j with
       | Some x => Return x
       | None => Raise IndexError
       end.

(** [[f(x) for x in xs]], where [f] may raise. *)
Fixpoint comprehension {A B} (f : A → result B) (xs : list A)
    : result (list B) :=
  match xs with
  | [] => Return []
  | x :: xs' =>
      y ← f x;
      ys ← comprehension f xs';
      Return (y :: ys)
  end.

(** ** Tables (the parsed JSON of one HybridQA table file)

    A header entry and a data cell are both JSON arrays whose element 0
    is the text and whose later elements are hyperlink lists. *)

Inductive item : Type :=
| Text (s : string)
| Links (urls : list string).

#[global] Instance item_eq_dec : EqDecision item.
Proof. solve_decision. Defined.

Record Table : Type := {
  title : string;
  header : list (list item);
  data : list (list (list item));
}.

(** ** utils.py: Storage *)

(** [tables] is [self.tables], from a table uid to the path of its JSON
    file; [files] gives, for each path that can be opened, what
    [json.load] reads from it. *)
Record Storage : Type := {
  tables : gmap string string;
  files : gmap string Table;
}.

Definition table_not_found (table_uid : string) : string :=
  "Table with uid: '" +:+ table_uid +:+ "' not found".

Definition get_table (self : Storage) (table_uid : string) : result Table :=
  match tables self !! table_uid with
  | None => Raise (ValueError (table_not_found table_uid))
  | Some path =>
      match files self !! path with
      | Some t => Return t
      | None => Raise (FileNotFoundError path)
      end
  end.

(** ** tools.py *)

(** Values stored under the keys of a tool result. *)
Inductive value : Type :=
| VBool (b : bool)
| VInt (z : Z)
| VStr (s : string)
| VItem (x : item)
| VItems (xs : list item)
| VInts (zs : list Z)
| VDict (d : list (string * string)).

Definition dict : Type := list (string * value).

Fixpoint dict_get (d : dict) (key : string) : option value :=
  match d with
  | [] => None
  | (k, v) :: d' => if String.eqb k key then Some v else dict_get d' key
  end.

(** [[header[0] for header in table["header"]]] *)
Definition header_names (table : Table) : result (list item) :=
  comprehension (fun h => py_getitem h 0) (header table).

Definition get_table_metadata (storage : Storage) (table_uid : string)
    : result dict :=
  try_except_ValueError
    (table ← get_table storage table_uid;
     columns ← header_names table;
     Return [("ok", VBool true);
             ("table title", VStr (title table));
             ("columns", VItems columns);
             ("num rows", VInt (Z.of_nat (length (data table))))])
    (fun e =>
     Return [("ok", VBool false);
             ("error", VStr e);
             ("table_uid", VStr table_uid)]).

Definition column_not_found (column_name : string) : string :=
  "Column '" +:+ column_name +:+ "' not found".

(** The loop [for i, name in enumerate(names): if name == column_name:
    return i], started at position [i]. *)
Fixpoint first_index (names : list item) (column_name : string) (i : nat)
    : option nat :=
  match names with
  | [] => None
  | name :: names' =>
      if decide (name = Text column_name) then Some i
      else first_index names' column_name (S i)
  end.

Definition _get_column_index (table : Table) (column_name : string)
    : result nat :=
  names ← header_names table;
  match first_index names column_name 0 with
  | Some i => Return i
  | None => Raise (ValueError (column_not_found column_name))
  end.

(** [row[column_index][0]] *)
Definition cell_text (row : list (list item)) (column_index : nat)
    : result item :=
  cell ← py_getitem row (Z.of_nat column_index);
  py_getitem cell 0.

Definition get_column (storage : Storage) (table_uid column_name : string)
    : result dict :=
  try_except_ValueError
    (table ← get_table storage table_uid;
     column_index ← _get_column_index table column_name;
     values ← comprehension (fun row => cell_text row column_index)
                            (data table);
     Return [("ok", VBool true);
             ("cells", VItems values)])
    (fun e =>
     Return [("ok", VBool false);
             ("error", VStr e);
             ("table_uid", VStr table_uid);
             ("column_name", VStr column_name)]).

Definition get_row_by_index (storage : Storage) (table_uid : string)
    (row_index : Z) : result dict :=
  try_except_ValueError
    (table ← get_table storage table_uid;
     row ← py_getitem (data table) row_index;
     values ← comprehension (fun cell => py_getitem cell 0) row;
     Return [("ok", VBool true);
             ("row", VItems values)])
    (fun e =>
     Return [("ok", VBool false);
             ("error", VStr e);
             ("table_uid", VStr table_uid);
             ("row_index", VInt row_index)]).

Definition get_cell (storage : Storage) (table_uid : string)
    (row_index : Z) (column_name : string) : result dict :=
  try_except_ValueError
    (table ← get_table storage table_uid;
     column_index ← _get_column_index table column_name;
     row ← py_getitem (data table) row_index;
     value ← cell_text row column_index;
     Return [("ok", VBool true);
             ("cell", VItem value)])
    (fun e =>
     Return [("ok", VBool false);
             ("error", VStr e);
             ("table_uid", VStr table_uid);
             ("column_name", VStr column_name)]).

(** The inner loop of [find_rows_by_value] over the remaining entries of
    [conditions.items()]: a mismatch leaves the loop ([break]); a match
    runs the [else] branch of the [if], which appends [row_index]. *)
Fixpoint scan_conditions (table : Table) (row : list (list item))
    (row_index : nat) (conditions : list (string * string))
    (row_indices : list nat) : result (list nat) :=
  match conditions with
  | [] => Return row_indices
  | (column_name, value) :: conditions' =>
      column_index ← _get_column_index table column_name;
      text ← cell_text row column_index;
      if decide (text ≠ Text value) then Return row_indices
      else scan_conditions table row row_index conditions'
             (row_indices ++ [row_index])
  end.

(** The outer loop [for row_index, row in enumerate(table["data"])] over
    the remaining rows, the first of which has position [row_index]. *)
Fixpoint scan_rows (table : Table) (rows : list (list (list item)))
    (row_index : nat) (conditions : list (string * string))
    (row_indices : list nat) : result (list nat) :=
  match rows with
  | [] => Return row_indices
  | row :: rows' =>
      row_indices' ← scan_conditions table row row_index conditions
                       row_indices;
      scan_rows table rows' (S row_index) conditions row_indices'
  end.

Definition find_rows_by_value (storage : Storage) (table_uid : string)
    (conditions : list (string * string)) : result dict :=
  try_except_ValueError
    (table ← get_table storage table_uid;
     row_indices ← scan_rows table (data table) 0 conditions [];
     Return [("ok", VBool true);
             ("row indices", VInts (Z.of_nat <$> row_indices))])
    (fun e =>
     Return [("ok", VBool false);
             ("error", VStr e);
             ("table_uid", VStr table_uid);
             ("conditions", VDict conditions)]).

(** ** Conversation state (langgraph [MessagesState] plus [next]) *)

Inductive role : Type := SystemRole | HumanRole | AIRole.

Record message : Type := {
  msg_role : role;
  content : string;
  name : option string;
}.

Definition SystemMessage (c : string) : message :=
  {| msg_role := SystemRole; content := c; name := None |}.
Definition AIMessage (c : string) : message :=
  {| msg_role := AIRole; content := c; name := None |}.
Definition HumanMessage (c : string) (n : string) : message :=
  {| msg_role := HumanRole; content := c; name := Some n |}.

(** [next] is absent until a node has written it. *)
Record State : Type := {
  messages : list message;
  next : option string;
}.

(** The [update] mapping of a node: the keys it writes. *)
Record Update : Type := {
  update_messages : option (list message);
  update_next : option string;
}.

Record Command : Type := {
  goto : string;
  update : Update;
}.

Definition START : string := "__start__".
Definition END : string := "__end__".

(** ** utils.py: validate_input, route *)

Definition validate_input (input_messages : list message) : State :=
  match input_messages with
  | [] => {| messages := [AIMessage "Please enter a question"];
             next := Some "end" |}
  | _ :: _ => {| messages := input_messages; next := Some "router" |}
  end.

Definition route (state : State) : result string :=
  match next state with
  | Some n => Return n
  | None => Raise (KeyError "next")
  end.

(** ** planner.py *)

(** [repr] of a list of plain names, as the f-string prints [options]. *)
Definition repr_names (names : list string) : string :=
  "[" +:+ String.concat ", " ((fun n => "'" +:+ n +:+ "'") <$> names) +:+ "]".

Record Router : Type := { Router_next : string }.

Section Planner.
(** The structured-output call: the text the model puts in the field
    [next], before the [Router] model validates it. *)
Variable llm_next : list message → string.
(** The prompt text, a function of [members[0]] and [members[1]]. *)
Variable system_prompt : string → string → string.
Variable members : list string.

Definition options : list string := "FINISH" :: members.

Definition validate_next (v : string) : result string :=
  if decide (v ∈ options) then Return v
  else Raise (ValueError ("next must be one of " +:+ repr_names options
                          +:+ ", got " +:+ v)).

(** Construction of a [Router]: pydantic runs the field validator and
    reports its [ValueError] as a validation error. *)
Definition Router_validate (v : string) : result Router :=
  match validate_next v with
  | Return v' => Return {| Router_next := v' |}
  | Raise (ValueError msg) => Raise (ValidationError msg)
  | Raise e => Raise e
  end.

Definition planner_node (prompt : string) (state : State)
    : result Command :=
  let messages := SystemMessage prompt :: messages state in
  response ← Router_validate (llm_next messages);
  let goto := Router_next response in
  let goto := if String.eqb goto "FINISH" then END else goto in
  Return {| goto := goto;
            update := {| update_messages := None;
                         update_next := Some goto |} |}.

Definition make_planner_node : result (State → result Command) :=
  m0 ← py_getitem members 0;
  m1 ← py_getitem members 1;
  Return (planner_node (system_prompt m0 m1)).
End Planner.

Definition answer_supervisor_node (llm_next : list message → string)
    (system_prompt : string → string → string) : State → result Command :=
  planner_node llm_next ["table_agent"; "analysis_agent"]
    (system_prompt "table_agent" "analysis_agent").

(** ** table_agent.py, analysis_agent.py *)

Section Workers.
(** [agent.invoke(state)["messages"]] for the two compiled agents. *)
Variable table_agent_invoke : State → list message.
Variable analysis_agent_invoke : State → list message.
Variable TABLE_AGENT_SYSTEM_PROMPT : string.
Variable ANALYSIS_AGENT_SYSTEM_PROMPT : string.

Definition table_agent_node (state : State) : result Command :=
  let messages_with_system :=
    SystemMessage TABLE_AGENT_SYSTEM_PROMPT :: messages state in
  let state_with_system :=
    {| messages := messages_with_system; next := next state |} in
  let result := table_agent_invoke state_with_system in
  last_message ← py_getitem result (-1);
  Return {| update := {| update_messages :=
                           Some [HumanMessage (content last_message)
                                   "table_agent"];
                         update_next := None |};
            goto := "router" |}.

Definition analysis_node (state : State) : result Command :=
  let messages_with_system :=
    SystemMessage ANALYSIS_AGENT_SYSTEM_PROMPT :: messages state in
  let state_with_system :=
    {| messages := messages_with_system; next := next state |} in
  let result := analysis_agent_invoke state_with_system in
  last_message ← py_getitem result (-1);
  Return {| update := {| update_messages :=
                           Some [HumanMessage (content last_message)
                                   "analysis_agent"];
                         update_next := None |};
            goto := "router" |}.
End Workers.

(** ** graph.py *)

Inductive outcome : Type :=
| Halted (final : State) (visited : list string)
| Crashed (e : exn) (visited : list string)
| OutOfFuel (s : State) (visited : list string).

Section Graph.
Variable llm_next : list message → string.
Variable system_prompt : string → string → string.
Variable table_agent_invoke : State → list message.
Variable analysis_agent_invoke : State → list message.
Variable TABLE_AGENT_SYSTEM_PROMPT : string.
Variable ANALYSIS_AGENT_SYSTEM_PROMPT : string.
(** The reducer of the [messages] channel. *)
Variable add_messages : list message → list message → list message.

Definition apply_update (s : State) (u : Update) : State :=
  {| messages := match update_messages u with
                 | Some ms => add_messages (messages s) ms
                 | None => messages s
                 end;
     next := match update_next u with
             | Some n => Some n
             | None => next s
             end |}.

(** [add_conditional_edges("validator", route, {"router": "router",
    "end": END})] *)
Definition validator_edges (state : State) : result string :=
  key ← route state;
  if String.eqb key "router" then Return "router"
  else if String.eqb key "end" then Return END
  else Raise (KeyError key).

Definition run_command (s : State) (c : result Command)
    : result (State * string) :=
  c' ← c; Return (apply_update s (update c'), goto c').

(** One node: the state it leaves and the node that runs next. *)
Definition node_step (node : string) (s : State)
    : result (State * string) :=
  if String.eqb node "validator" then
    let out := validate_input (messages s) in
    let s' := apply_update s {| update_messages := Some (messages out);
                                update_next := next out |} in
    target ← validator_edges s';
    Return (s', target)
  else if String.eqb node "router" then
    run_command s (answer_supervisor_node llm_next system_prompt s)
  else if String.eqb node "table_agent" then
    run_command s (table_agent_node table_agent_invoke
                     TABLE_AGENT_SYSTEM_PROMPT s)
  else if String.eqb node "analysis_agent" then
    run_command s (analysis_node analysis_agent_invoke
                     ANALYSIS_AGENT_SYSTEM_PROMPT s)
  else Raise (KeyError node).

(** Runs at most [fuel] nodes, starting with [node]. *)
Fixpoint run (fuel : nat) (node : string) (s : State)
    (visited : list string) : outcome :=
  match fuel with
  | O => OutOfFuel s visited
  | S fuel' =>
      match node_step node s with
      | Raise e => Crashed e (visited ++ [node])
      | Return (s', target) =>
          if String.eqb target END then Halted s' (visited ++ [node])
          else run fuel' target s' (visited ++ [node])
      end
  end.

(** [graph.invoke({"messages": input})]: the edge from START enters
    the validator. *)
Definition graph (fuel : nat) (input : list message) : outcome :=
  run fuel "validator" {| messages := input; next := None |} [].
End Graph.

(** ** utils.py: the retrievers and the passage store

    The attributes of [Storage] that the retrieval methods read. A
    retriever is a parameter: a function from the query to the documents
    it ranks. *)

Record Document : Type := { page_content : string }.

Record Retrieval : Type := {
  passages : gmap string string;
  table_retriever : string → list Document;
  wiki_retriever : string → list Document;
}.

(** [Storage.retrieve_tables] *)
Fixpoint collect_table_uids (docs : list Document) (table_uids : list string)
    : list string :=
  match docs with
  | [] => table_uids
  | doc :: docs' =>
      collect_table_uids docs' (table_uids ++ [page_content doc])
  end.

Definition Storage_retrieve_tables (self : Retrieval) (query : string)
    : list string :=
  let retrieved_documents := table_retriever self query in
  collect_table_uids retrieved_documents [].

(** [Storage.retrieve_wiki_passages]: [self.passages[doc.page_content]]
    raises KeyError on a key the passage store lacks. *)
Fixpoint collect_passages (passages : gmap string string)
    (docs : list Document) (passages_texts : list string)
    : result (list string) :=
  match docs with
  | [] => Return passages_texts
  | doc :: docs' =>
      match passages !! page_content doc with
      | Some text => collect_passages passages docs' (passages_texts ++ [text])
      | None => Raise (KeyError (page_content doc))
      end
  end.

Definition Storage_retrieve_wiki_passages (self : Retrieval) (query : string)
    : result (list string) :=
  let retrieved_documents := wiki_retriever self query in
  collect_passages (passages self) retrieved_documents [].

(** [Storage._create_table_vectorstore], as far as [self.tables] and the
    texts handed to the vector store go: one entry per path of the
    directory listing, keyed by the stem of the path. *)
Section CreateTableVectorstore.
(** [Path.stem] *)
Variable stem : string → string.

Fixpoint register_tables (listing : list string)
    (tables : gmap string string) (table_uids : gset string)
    : gmap string string * gset string :=
  match listing with
  | [] => (tables, table_uids)
  | table_path :: listing' =>
      register_tables listing' (<[stem table_path := table_path]> tables)
        ({[stem table_path]} ∪ table_uids)
  end.

Definition _create_table_vectorstore (listing : list string)
    (tables : gmap string string) : gmap string string * gset string :=
  register_tables listing tables ∅.
End CreateTableVectorstore.

(** [Storage._create_wiki_vectorstore], as far as [self.passages] and the
    texts handed to the vector store go: [loaded] is what [json.load]
    reads from each file of the listing, in order. *)
Fixpoint update_passages (loaded : list (gmap string string))
    (passages : gmap string string) : gmap string string :=
  match loaded with
  | [] => passages
  | file_passages :: loaded' =>
      update_passages loaded' (file_passages ∪ passages)
  end.

Definition _create_wiki_vectorstore (loaded : list (gmap string string))
    : gmap string string * gset string :=
  let passages := update_passages loaded ∅ in
  (passages, dom passages).

(** ** tools.py: the retrieval tools *)

Definition retrieve_tables (storage : Retrieval) (query : string)
    : result dict :=
  let table_uids := Storage_retrieve_tables storage query in
  Return [("ok", VBool true);
          ("table uids", VItems (Text <$> table_uids))].

Definition retrieve_wiki_passages (storage : Retrieval) (query : string)
    : result dict :=
  passages ← Storage_retrieve_wiki_passages storage query;
  Return [("ok", VBool true);
          ("passages texts", VItems (Text <$> passages))].

(** * Properties *)

(** ** A concrete store: the table of the specification's scenario *)

Definition cell (s : string) : list item := [Text s; Links []].

Definition T1 : Table :=
  {| title := "T1";
     header := [cell "Name"; cell "City"];
     data := [[cell "Alice"; cell "NYC"]; [cell "Bob"; cell "LA"]] |}.

Definition T1_path : string := "data/hybrid_qa/tables_tok/T1.json".

Definition T1_storage : Storage :=
  {| tables := {[ "T1" := T1_path ]}; files := {[ T1_path := T1 ]} |}.

(** ** Well-formed tables

    The data model of a table: every header entry and every cell carries
    its element 0, and every row has one cell per column. *)

Definition entries_ok (entries : list (list item)) : Prop :=
  Forall (fun e => e ≠ []) entries.

Definition table_wf (t : Table) : Prop :=
  entries_ok (header t) ∧
  Forall (fun row => length row = length (header t) ∧ entries_ok row)
         (data t).

#[global] Instance table_wf_dec t : Decision (table_wf t).
Proof. unfold table_wf, entries_ok. apply _. Defined.

(** The column names of a table, and "the table has a column named c". *)
Definition columns (t : Table) : list item := omap head (header t).

Definition has_column (t : Table) (column_name : string) : Prop :=
  Text column_name ∈ columns t.

#[global] Instance has_column_dec t c : Decision (has_column t c).
Proof. unfold has_column. apply _. Defined.

(** ** Indexing *)

(** Splits on every integer comparison of the goal. *)
Ltac case_bounds :=
  repeat match goal with
    | |- context [Z.ltb ?a ?b] => destruct (Z.ltb_spec a b)
    | |- context [Z.leb ?a ?b] => destruct (Z.leb_spec a b)
    end;
  simpl; try lia.

Lemma py_getitem_nat {A} (l : list A) (i : nat) :
  py_getitem l (Z.of_nat i) =
  match l !! i with Some x => Return x | None => Raise IndexError end.
Proof.
  unfold py_getitem. cbv zeta. case_bounds.
  - rewrite lookup_ge_None_2 by lia. reflexivity.
  - rewrite Nat2Z.id. reflexivity.
Qed.

Lemma py_getitem_head {A} (l : list A) :
  py_getitem l 0 =
  match head l with Some x => Return x | None => Raise IndexError end.
Proof. destruct l; reflexivity. Qed.

Lemma py_getitem_out_of_range {A} (l : list A) (i : Z) :
  Z.of_nat (length l) ≤ i → py_getitem l i = Raise IndexError.
Proof.
  intros Hge. unfold py_getitem. cbv zeta. case_bounds. reflexivity.
Qed.

Lemma py_getitem_negative {A} (l : list A) (i : Z) :
  - Z.of_nat (length l) ≤ i → i < 0 →
  py_getitem l i =
  match l !! Z.to_nat (Z.of_nat (length l) + i) with
  | Some x => Return x
  | None => Raise IndexError
  end.
Proof.
  intros Hlo Hneg. unfold py_getitem. cbv zeta. case_bounds.
  rewrite (Z.add_comm i). reflexivity.
Qed.

(** ** Comprehensions *)

Lemma comprehension_length {A B} (f : A → result B) xs ys :
  comprehension f xs = Return ys → length ys = length xs.
Proof.
  revert ys. induction xs as [| x xs IH]; intros ys Hc; simpl in Hc.
  - injection Hc as <-. reflexivity.
  - destruct (f x) as [y |]; simpl in Hc; [| discriminate].
    destruct (comprehension f xs) as [ys' |]; simpl in Hc; [| discriminate].
    injection Hc as <-. simpl. f_equal. apply IH. reflexivity.
Qed.

Lemma comprehension_heads (entries : list (list item)) :
  entries_ok entries →
  comprehension (fun e => py_getitem e 0) entries
  = Return (omap head entries).
Proof.
  induction 1 as [| e entries He _ IH]; simpl; [reflexivity |].
  rewrite IH. destruct e as [| x e]; [contradiction |]. reflexivity.
Qed.

Lemma heads_length (entries : list (list item)) :
  entries_ok entries → length (omap head entries) = length entries.
Proof.
  induction 1 as [| e entries He _ IH]; simpl; [reflexivity |].
  destruct e as [| x e]; [contradiction |]. simpl. f_equal. exact IH.
Qed.

Lemma header_names_wf t :
  entries_ok (header t) → header_names t = Return (columns t).
Proof. apply comprehension_heads. Qed.

(** ** Column lookup *)

Lemma first_index_bounds names c k i :
  first_index names c k = Some i →
  (k ≤ i < k + length names)%nat ∧ names !! (i - k)%nat = Some (Text c).
Proof.
  revert k. induction names as [| name names IH]; intros k Hf; simpl in Hf.
  - discriminate.
  - destruct (decide (name = Text c)) as [-> | Hne].
    + injection Hf as <-. simpl. split; [lia |].
      replace (k - k)%nat with 0%nat by lia. reflexivity.
    + apply IH in Hf as [Hb Hl]. simpl. split; [lia |].
      replace (i - k)%nat with (S (i - S k)) by lia. exact Hl.
Qed.

Lemma first_index_found names c k :
  Text c ∈ names → ∃ i, first_index names c k = Some i.
Proof.
  revert k. induction names as [| name names IH]; intros k Hin.
  - inversion Hin.
  - simpl. destruct (decide (name = Text c)) as [-> | Hne]; [eauto |].
    apply IH. inversion Hin; subst; [contradiction | assumption].
Qed.

(** The position [_get_column_index] computes on a well-formed header. *)
Definition column_index (t : Table) (column_name : string) : option nat :=
  first_index (columns t) column_name 0.

Lemma get_column_index_wf t c :
  entries_ok (header t) →
  _get_column_index t c =
  match column_index t c with
  | Some i => Return i
  | None => Raise (ValueError (column_not_found c))
  end.
Proof.
  intros Hh. unfold _get_column_index. rewrite header_names_wf by exact Hh.
  reflexivity.
Qed.

Lemma column_index_has_column t c :
  entries_ok (header t) → has_column t c →
  ∃ i, column_index t c = Some i ∧ (i < length (header t))%nat.
Proof.
  intros Hh Hc. destruct (first_index_found _ _ 0%nat Hc) as [i Hi].
  exists i. split; [exact Hi |].
  apply first_index_bounds in Hi as [Hb _].
  unfold columns in Hb. rewrite heads_length in Hb by exact Hh. lia.
Qed.

(** ** Cells *)

Definition cell_at (row : list (list item)) (i : nat) : option item :=
  row !! i ≫= head.

Lemma cell_text_spec row i :
  cell_text row i =
  match cell_at row i with Some x => Return x | None => Raise IndexError end.
Proof.
  unfold cell_text, cell_at. rewrite py_getitem_nat.
  destruct (row !! i) as [c |]; simpl; [| reflexivity].
  apply py_getitem_head.
Qed.

Lemma cell_at_wf row i :
  entries_ok row → (i < length row)%nat → is_Some (cell_at row i).
Proof.
  intros Hrow Hi. unfold cell_at.
  destruct (lookup_lt_is_Some_2 row i Hi) as [c Hc]. rewrite Hc. simpl.
  assert (Hne : c ≠ []).
  { unfold entries_ok in Hrow. rewrite Forall_forall in Hrow.
    apply Hrow. apply list_elem_of_lookup. eauto. }
  destruct c; [contradiction | eauto].
Qed.

(** ** Unknown table uid *)

Definition not_found_failure (table_uid : string) (r : result dict) : Prop :=
  ∃ d, r = Return d ∧
       dict_get d "ok" = Some (VBool false) ∧
       dict_get d "error" = Some (VStr (table_not_found table_uid)) ∧
       dict_get d "table_uid" = Some (VStr table_uid).

(** C4. When the uid is not a key of the table store, each of the five
    table tools returns (and does not raise) a mapping in which "ok" is
    false, "error" is the message "Table with uid: '<uid>' not found" and
    "table_uid" is the requested uid. *)
Theorem unknown_table_uid_fails (storage : Storage) (table_uid : string) :
  tables storage !! table_uid = None →
  not_found_failure table_uid (get_table_metadata storage table_uid) ∧
  (∀ column_name,
     not_found_failure table_uid (get_column storage table_uid column_name)) ∧
  (∀ row_index,
     not_found_failure table_uid
       (get_row_by_index storage table_uid row_index)) ∧
  (∀ row_index column_name,
     not_found_failure table_uid
       (get_cell storage table_uid row_index column_name)) ∧
  (∀ conditions,
     not_found_failure table_uid
       (find_rows_by_value storage table_uid conditions)).
Proof.
  intros Hnone.
  assert (Hget : get_table storage table_uid
                 = Raise (ValueError (table_not_found table_uid))).
  { unfold get_table. rewrite Hnone. reflexivity. }
  unfold not_found_failure, get_table_metadata, get_column, get_row_by_index,
    get_cell, find_rows_by_value.
  rewrite Hget. simpl.
  repeat split; intros; eexists; repeat split; reflexivity.
Qed.

Lemma unknown_table_uid_fails_witness :
  not_found_failure "T9" (get_table_metadata T1_storage "T9") ∧
  not_found_failure "T9" (get_row_by_index T1_storage "T9" 0).
Proof.
  destruct (unknown_table_uid_fails T1_storage "T9") as (Hm & _ & Hr & _).
  - reflexivity.
  - split; [exact Hm | exact (Hr 0)].
Defined.

(** ** Row access *)

(** C5. For a stored table with n rows and a row index of at least n,
    [get_row_by_index] raises IndexError: the list access faults and the
    handler, which catches ValueError only, lets it through. *)
Theorem get_row_by_index_out_of_range (storage : Storage)
    (table_uid : string) (table : Table) (row_index : Z) :
  get_table storage table_uid = Return table →
  Z.of_nat (length (data table)) ≤ row_index →
  get_row_by_index storage table_uid row_index = Raise IndexError.
Proof.
  intros Hget Hge. unfold get_row_by_index. rewrite Hget. simpl.
  rewrite py_getitem_out_of_range by exact Hge. reflexivity.
Qed.

Lemma get_row_by_index_out_of_range_witness :
  get_row_by_index T1_storage "T1" 2 = Raise IndexError.
Proof.
  apply (get_row_by_index_out_of_range T1_storage "T1" T1 2).
  - reflexivity.
  - simpl. lia.
Defined.

(** C10. For a stored, well-formed table with n rows and a row index in
    [-n, -1], [get_row_by_index] returns the success mapping whose "row"
    holds the texts of the row at position n + row_index. *)
Theorem get_row_by_index_negative (storage : Storage) (table_uid : string)
    (table : Table) (row_index : Z) :
  get_table storage table_uid = Return table →
  table_wf table →
  - Z.of_nat (length (data table)) ≤ row_index →
  row_index < 0 →
  ∃ row,
    data table !! Z.to_nat (Z.of_nat (length (data table)) + row_index)
      = Some row ∧
    get_row_by_index storage table_uid row_index
      = Return [("ok", VBool true); ("row", VItems (omap head row))].
Proof.
  intros Hget [_ Hrows] Hlo Hneg.
  destruct (lookup_lt_is_Some_2 (data table)
              (Z.to_nat (Z.of_nat (length (data table)) + row_index)))
    as [row Hrow]; [lia |].
  exists row. split; [exact Hrow |].
  unfold get_row_by_index. rewrite Hget. simpl.
  rewrite py_getitem_negative by assumption. rewrite Hrow. simpl.
  rewrite Forall_forall in Hrows.
  destruct (Hrows row) as [_ Hcells].
  { apply list_elem_of_lookup. eauto. }
  rewrite comprehension_heads by exact Hcells. reflexivity.
Qed.

Lemma get_row_by_index_negative_witness :
  ∃ row,
    data T1 !! Z.to_nat (Z.of_nat (length (data T1)) + -1) = Some row ∧
    get_row_by_index T1_storage "T1" (-1)
      = Return [("ok", VBool true); ("row", VItems (omap head row))].
Proof.
  apply (get_row_by_index_negative T1_storage "T1" T1 (-1)).
  - reflexivity.
  - vm_compute. repeat constructor; discriminate.
  - simpl. lia.
  - lia.
Defined.

Lemma T1_wf : table_wf T1.
Proof. vm_compute. repeat constructor; discriminate. Qed.

(** The scenario of the specification, evaluated. *)
Example scenario_get_cell :
  get_cell T1_storage "T1" 0 "City"
  = Return [("ok", VBool true); ("cell", VItem (Text "NYC"))].
Proof. reflexivity. Qed.

Example scenario_find_rows_by_value :
  find_rows_by_value T1_storage "T1" [("City", "LA")]
  = Return [("ok", VBool true); ("row indices", VInts [1])].
Proof. reflexivity. Qed.

Example scenario_get_column_missing :
  get_column T1_storage "T1" "Country"
  = Return [("ok", VBool false);
            ("error", VStr "Column 'Country' not found");
            ("table_uid", VStr "T1");
            ("column_name", VStr "Country")].
Proof. reflexivity. Qed.

(** A file whose second row lacks the City cell is outside the data model:
    the tools do not check for it and the list access faults. *)
Definition T1_ragged : Table :=
  {| title := "T1";
     header := [cell "Name"; cell "City"];
     data := [[cell "Alice"; cell "NYC"]; [cell "Bob"]] |}.

Example ragged_get_column :
  ¬ table_wf T1_ragged ∧
  get_column {| tables := {[ "T1" := T1_path ]};
                files := {[ T1_path := T1_ragged ]} |} "T1" "City"
  = Raise IndexError.
Proof.
  split; [| reflexivity].
  intros [_ Hrows]. inversion Hrows as [| ? ? _ Hrest].
  inversion Hrest as [| ? ? [Hlen _] _]. discriminate.
Qed.

(** ** Column access *)

Lemma comprehension_succeeds {A B} (f : A → result B) xs :
  Forall (fun x => ∃ y, f x = Return y) xs →
  ∃ ys, comprehension f xs = Return ys.
Proof.
  induction 1 as [| x xs [y Hy] _ [ys IH]]; simpl; [eauto |].
  rewrite Hy, IH. simpl. eauto.
Qed.

Lemma cell_text_wf (t : Table) row i :
  length row = length (header t) ∧ entries_ok row →
  (i < length (header t))%nat →
  ∃ x, cell_at row i = Some x ∧ cell_text row i = Return x.
Proof.
  intros [Hlen Hcells] Hi.
  destruct (cell_at_wf row i Hcells) as [x Hx]; [lia |].
  exists x. split; [exact Hx |]. rewrite cell_text_spec, Hx. reflexivity.
Qed.

(** C3. For a stored, well-formed table and a column name of its header,
    [get_column] returns a success mapping whose "cells" list is as long
    as the table has rows, which is the "num rows" value that
    [get_table_metadata] reports for the same uid. *)
Theorem get_column_length (storage : Storage) (table_uid : string)
    (table : Table) (column_name : string) :
  get_table storage table_uid = Return table →
  table_wf table →
  has_column table column_name →
  ∃ cells metadata,
    get_column storage table_uid column_name
      = Return [("ok", VBool true); ("cells", VItems cells)] ∧
    get_table_metadata storage table_uid = Return metadata ∧
    dict_get metadata "ok" = Some (VBool true) ∧
    dict_get metadata "num rows" = Some (VInt (Z.of_nat (length cells))) ∧
    length cells = length (data table).
Proof.
  intros Hget [Hheader Hrows] Hcol.
  destruct (column_index_has_column table column_name Hheader Hcol)
    as (i & Hi & Hlt).
  destruct (comprehension_succeeds (fun row => cell_text row i) (data table))
    as [cells Hcells].
  { eapply Forall_impl; [exact Hrows |]. intros row Hrow.
    destruct (cell_text_wf table row i Hrow Hlt) as (x & _ & Hx). eauto. }
  pose proof (comprehension_length _ _ _ Hcells) as Hlen.
  exists cells. eexists. split; [| split].
  - unfold get_column. rewrite Hget. simpl.
    rewrite get_column_index_wf by exact Hheader. rewrite Hi. simpl.
    rewrite Hcells. reflexivity.
  - unfold get_table_metadata. rewrite Hget. simpl.
    rewrite header_names_wf by exact Hheader. reflexivity.
  - simpl. rewrite Hlen. auto.
Qed.

Lemma get_column_length_witness :
  ∃ cells metadata,
    get_column T1_storage "T1" "City"
      = Return [("ok", VBool true); ("cells", VItems cells)] ∧
    get_table_metadata T1_storage "T1" = Return metadata ∧
    dict_get metadata "ok" = Some (VBool true) ∧
    dict_get metadata "num rows" = Some (VInt (Z.of_nat (length cells))) ∧
    length cells = length (data T1).
Proof.
  apply (get_column_length T1_storage "T1" T1 "City").
  - reflexivity.
  - exact T1_wf.
  - vm_compute. right. left.
Defined.

(** ** Row search *)

(** The cell of [row] in the column named by the condition holds exactly
    the expected text. *)
Definition condition_holds (t : Table) (row : list (list item))
    (condition : string * string) : bool :=
  bool_decide (column_index t condition.1 ≫= cell_at row
               = Some (Text condition.2)).

(** How many leading conditions hold of [row]. *)
Fixpoint passed (t : Table) (row : list (list item))
    (conditions : list (string * string)) : nat :=
  match conditions with
  | [] => 0
  | condition :: conditions' =>
      if condition_holds t row condition
      then S (passed t row conditions')
      else 0
  end.

(** Position [k] once per passed condition, row after row. *)
Fixpoint appended (t : Table) (rows : list (list (list item))) (k : nat)
    (conditions : list (string * string)) : list nat :=
  match rows with
  | [] => []
  | row :: rows' =>
      replicate (passed t row conditions) k
      ++ appended t rows' (S k) conditions
  end.

Lemma passed_all t row conditions :
  forallb (condition_holds t row) conditions = true →
  passed t row conditions = length conditions.
Proof.
  induction conditions as [| cv conditions IH]; simpl; [reflexivity |].
  destruct (condition_holds t row cv); simpl; [| discriminate].
  intros Hall. f_equal. exact (IH Hall).
Qed.

Lemma scan_conditions_wf t row k conditions acc :
  entries_ok (header t) →
  length row = length (header t) ∧ entries_ok row →
  Forall (fun condition => has_column t condition.1) conditions →
  scan_conditions t row k conditions acc
  = Return (acc ++ replicate (passed t row conditions) k)%list.
Proof.
  intros Hheader Hrow Hcols. revert acc.
  induction Hcols as [| [c v] conditions Hc _ IH]; intros acc; simpl.
  - rewrite app_nil_r. reflexivity.
  - destruct (column_index_has_column t c Hheader Hc) as (i & Hi & Hlt).
    destruct (cell_text_wf t row i Hrow Hlt) as (x & Hcell & Hx).
    rewrite get_column_index_wf by exact Hheader. rewrite Hi. simpl.
    rewrite Hx. simpl.
    unfold condition_holds. simpl. rewrite Hi. simpl. rewrite Hcell.
    destruct (decide (x ≠ Text v)) as [Hne | Heq].
    + rewrite bool_decide_eq_false_2 by congruence.
      simpl. rewrite app_nil_r. reflexivity.
    + apply dec_stable in Heq. subst x.
      rewrite bool_decide_eq_true_2 by reflexivity.
      rewrite IH. simpl. rewrite <- app_assoc. reflexivity.
Qed.

Lemma scan_rows_wf t rows k conditions acc :
  entries_ok (header t) →
  Forall (fun row => length row = length (header t) ∧ entries_ok row) rows →
  Forall (fun condition => has_column t condition.1) conditions →
  scan_rows t rows k conditions acc
  = Return (acc ++ appended t rows k conditions)%list.
Proof.
  intros Hheader Hrows Hcols. revert k acc.
  induction Hrows as [| row rows Hrow _ IH]; intros k acc; simpl.
  - rewrite app_nil_r. reflexivity.
  - rewrite scan_conditions_wf by assumption. simpl.
    rewrite IH, <- app_assoc. reflexivity.
Qed.

(** With no condition the inner loop body never runs. *)
Lemma scan_rows_no_condition t rows k acc :
  scan_rows t rows k [] acc = Return acc.
Proof.
  revert k acc. induction rows as [| row rows IH]; intros k acc; simpl.
  - reflexivity.
  - apply IH.
Qed.

Lemma count_occ_replicate_eq (n k : nat) :
  count_occ Nat.eq_dec (replicate n k) k = n.
Proof.
  induction n as [| n IH]; simpl; [reflexivity |].
  destruct (Nat.eq_dec k k); [f_equal; exact IH | contradiction].
Qed.

Lemma count_occ_replicate_ne (n k i : nat) :
  k ≠ i → count_occ Nat.eq_dec (replicate n k) i = 0%nat.
Proof.
  intros Hne. induction n as [| n IH]; simpl; [reflexivity |].
  destruct (Nat.eq_dec k i); [contradiction | exact IH].
Qed.

Lemma count_occ_appended_below t rows k conditions i :
  (i < k)%nat → count_occ Nat.eq_dec (appended t rows k conditions) i = 0%nat.
Proof.
  revert k. induction rows as [| row rows IH]; intros k Hlt; simpl.
  - reflexivity.
  - rewrite count_occ_app, count_occ_replicate_ne by lia.
    rewrite IH by lia. reflexivity.
Qed.

Lemma count_occ_appended t rows k conditions i row :
  (k ≤ i)%nat → rows !! (i - k)%nat = Some row →
  count_occ Nat.eq_dec (appended t rows k conditions) i
  = passed t row conditions.
Proof.
  revert k. induction rows as [| row0 rows IH]; intros k Hle Hrow.
  - discriminate.
  - simpl. rewrite count_occ_app. destruct (decide (i = k)) as [-> | Hne].
    + replace (k - k)%nat with 0%nat in Hrow by lia.
      injection Hrow as ->.
      rewrite count_occ_replicate_eq, count_occ_appended_below by lia. lia.
    + replace (i - k)%nat with (S (i - S k)) in Hrow by lia. simpl in Hrow.
      rewrite count_occ_replicate_ne by lia.
      rewrite (IH (S k)) by (lia || assumption). reflexivity.
Qed.

Lemma find_rows_by_value_wf (storage : Storage) (table_uid : string)
    (table : Table) (conditions : list (string * string)) :
  get_table storage table_uid = Return table →
  table_wf table →
  Forall (fun condition => has_column table condition.1) conditions →
  find_rows_by_value storage table_uid conditions
  = Return [("ok", VBool true);
            ("row indices",
             VInts (Z.of_nat <$> appended table (data table) 0 conditions))].
Proof.
  intros Hget [Hheader Hrows] Hcols.
  unfold find_rows_by_value. rewrite Hget. simpl.
  rewrite scan_rows_wf by assumption. reflexivity.
Qed.

Lemma find_rows_by_value_no_condition (storage : Storage)
    (table_uid : string) (table : Table) :
  get_table storage table_uid = Return table →
  find_rows_by_value storage table_uid []
  = Return [("ok", VBool true); ("row indices", VInts [])].
Proof.
  intros Hget. unfold find_rows_by_value. rewrite Hget. simpl.
  rewrite scan_rows_no_condition. reflexivity.
Qed.

(** C9. There are a stored table and a conditions mapping of two entries
    for which [find_rows_by_value] returns a row index twice. In general,
    on a stored, well-formed table and conditions over its columns, the
    returned list holds the index of a row once for every condition that
    passes before the first failing one: as many times as there are
    conditions when all of them hold, and at least once as soon as the
    first one holds. *)
Theorem find_rows_by_value_repeats :
  (∃ storage table_uid conditions row_indices i,
     (2 ≤ length conditions)%nat ∧
     find_rows_by_value storage table_uid conditions
     = Return [("ok", VBool true);
               ("row indices", VInts (Z.of_nat <$> row_indices))] ∧
     (2 ≤ count_occ Nat.eq_dec row_indices i)%nat) ∧
  (∀ storage table_uid table conditions,
     get_table storage table_uid = Return table →
     table_wf table →
     Forall (fun condition => has_column table condition.1) conditions →
     ∃ row_indices,
       find_rows_by_value storage table_uid conditions
       = Return [("ok", VBool true);
                 ("row indices", VInts (Z.of_nat <$> row_indices))] ∧
       ∀ i row,
         data table !! i = Some row →
         count_occ Nat.eq_dec row_indices i = passed table row conditions ∧
         (forallb (condition_holds table row) conditions = true →
          count_occ Nat.eq_dec row_indices i = length conditions) ∧
         (∀ first rest,
            conditions = first :: rest →
            condition_holds table row first = true →
            i ∈ row_indices)).
Proof.
  split.
  - exists T1_storage, "T1", [("Name", "Alice"); ("City", "NYC")],
      [0; 0]%nat, 0%nat.
    split; [simpl; lia |]. split; [reflexivity | simpl; lia].
  - intros storage table_uid table conditions Hget Hwf Hcols.
    exists (appended table (data table) 0 conditions).
    split; [apply (find_rows_by_value_wf _ _ _ _ Hget Hwf Hcols) |].
    intros i row Hrow.
    assert (Hcount : count_occ Nat.eq_dec
                       (appended table (data table) 0 conditions) i
                     = passed table row conditions).
    { apply count_occ_appended; [lia |].
      replace (i - 0)%nat with i by lia. exact Hrow. }
    split; [exact Hcount |]. split.
    + intros Hall. rewrite Hcount. apply passed_all. exact Hall.
    + intros first rest -> Hfirst.
      apply list_elem_of_In, (count_occ_In Nat.eq_dec).
      rewrite Hcount. simpl. rewrite Hfirst. lia.
Qed.

Lemma find_rows_by_value_repeats_witness :
  ∃ row_indices,
    find_rows_by_value T1_storage "T1" [("Name", "Alice"); ("City", "LA")]
    = Return [("ok", VBool true);
              ("row indices", VInts (Z.of_nat <$> row_indices))] ∧
    ∀ i row,
      data T1 !! i = Some row →
      count_occ Nat.eq_dec row_indices i
      = passed T1 row [("Name", "Alice"); ("City", "LA")] ∧
      (forallb (condition_holds T1 row) [("Name", "Alice"); ("City", "LA")]
       = true →
       count_occ Nat.eq_dec row_indices i = 2%nat) ∧
      (∀ first rest,
         [("Name", "Alice"); ("City", "LA")] = first :: rest →
         condition_holds T1 row first = true →
         i ∈ row_indices).
Proof.
  apply (proj2 find_rows_by_value_repeats T1_storage "T1" T1).
  - reflexivity.
  - exact T1_wf.
  - vm_compute. repeat constructor.
Defined.

(** C1, at the input where the code departs from it: with the conditions
    City = LA and then Name = Alice, no row of the scenario's table
    satisfies both, yet the returned list holds index 1 (row Bob, LA
    passes the first condition and is appended before the second
    condition fails); with Name = Alice and City = NYC exactly one row
    satisfies both and the returned list has two elements. *)
Theorem find_rows_by_value_partial_match :
  find_rows_by_value T1_storage "T1" [("City", "LA"); ("Name", "Alice")]
  = Return [("ok", VBool true); ("row indices", VInts [1])] ∧
  (fun row => forallb (condition_holds T1 row)
                      [("City", "LA"); ("Name", "Alice")]) <$> data T1
  = [false; false] ∧
  find_rows_by_value T1_storage "T1" [("Name", "Alice"); ("City", "NYC")]
  = Return [("ok", VBool true); ("row indices", VInts [0; 0])] ∧
  (fun row => forallb (condition_holds T1 row)
                      [("Name", "Alice"); ("City", "NYC")]) <$> data T1
  = [true; false].
Proof. repeat split; vm_compute; reflexivity. Qed.

(** C2, at the input where the code departs from it: with an empty
    conditions mapping the scenario's table has two rows and the returned
    list of row indices is empty, since the index is only ever appended
    inside the loop over the conditions. *)
Theorem find_rows_by_value_empty_conditions :
  length (data T1) = 2%nat ∧
  find_rows_by_value T1_storage "T1" []
  = Return [("ok", VBool true); ("row indices", VInts [])].
Proof.
  split; [reflexivity |].
  apply (find_rows_by_value_no_condition T1_storage "T1" T1). reflexivity.
Qed.

(** ** Input validation *)

(** C6. On an empty message list [validate_input] returns the single
    message "Please enter a question" with next = "end", and the graph
    then halts having run the validator only; on a non-empty list it
    returns the same messages with next = "router", and the conditional
    edge leads to the router. *)
Theorem validate_input_gate
    (llm_next : list message → string)
    (system_prompt : string → string → string)
    (table_agent_invoke analysis_agent_invoke : State → list message)
    (TABLE_AGENT_SYSTEM_PROMPT ANALYSIS_AGENT_SYSTEM_PROMPT : string)
    (add_messages : list message → list message → list message) :
  validate_input []
  = {| messages := [AIMessage "Please enter a question"];
       next := Some "end" |} ∧
  (∀ fuel,
     graph llm_next system_prompt table_agent_invoke analysis_agent_invoke
       TABLE_AGENT_SYSTEM_PROMPT ANALYSIS_AGENT_SYSTEM_PROMPT add_messages
       (S fuel) []
     = Halted {| messages :=
                   add_messages [] [AIMessage "Please enter a question"];
                 next := Some "end" |}
              ["validator"]) ∧
  (∀ m ms,
     validate_input (m :: ms)
     = {| messages := m :: ms; next := Some "router" |} ∧
     validator_edges (validate_input (m :: ms)) = Return "router" ∧
     ∃ s,
       node_step llm_next system_prompt table_agent_invoke
         analysis_agent_invoke TABLE_AGENT_SYSTEM_PROMPT
         ANALYSIS_AGENT_SYSTEM_PROMPT add_messages "validator"
         {| messages := m :: ms; next := None |}
       = Return (s, "router")).
Proof.
  split; [reflexivity |]. split.
  - intros fuel. reflexivity.
  - intros m ms. split; [reflexivity |]. split; [reflexivity |].
    eexists. reflexivity.
Qed.

(** ** Routing *)

Lemma answer_supervisor_node_made llm_next system_prompt :
  make_planner_node llm_next system_prompt ["table_agent"; "analysis_agent"]
  = Return (answer_supervisor_node llm_next system_prompt).
Proof. reflexivity. Qed.

Lemma py_getitem_last {A} (l : list A) :
  py_getitem l (-1) =
  match last l with Some x => Return x | None => Raise IndexError end.
Proof.
  destruct l as [| x l]; [reflexivity |].
  rewrite py_getitem_negative by (simpl length; lia).
  rewrite last_lookup.
  replace (Z.to_nat (Z.of_nat (length (x :: l)) + -1))
    with (Nat.pred (length (x :: l))) by (simpl length; lia).
  destruct ((x :: l) !! Nat.pred (length (x :: l))); reflexivity.
Qed.

Definition allowed_next : list string :=
  ["FINISH"; "table_agent"; "analysis_agent"].

(** C7. A value of [next] outside FINISH, table_agent, analysis_agent
    makes the construction of the [Router] model fail with a validation
    error, and the planner node then raises it instead of returning a
    command; a value inside the set is accepted; every command the
    planner node returns has its goto among table_agent, analysis_agent
    and the end sentinel. *)
Theorem router_validates_next
    (llm_next : list message → string)
    (system_prompt : string → string → string) (state : State) :
  let members := ["table_agent"; "analysis_agent"] in
  let decision :=
    llm_next (SystemMessage (system_prompt "table_agent" "analysis_agent")
              :: messages state) in
  options members = allowed_next ∧
  (∀ v, v ∉ allowed_next →
        ∃ msg, Router_validate members v = Raise (ValidationError msg)) ∧
  (∀ v, v ∈ allowed_next →
        Router_validate members v = Return {| Router_next := v |}) ∧
  (decision ∉ allowed_next →
   ∃ msg, answer_supervisor_node llm_next system_prompt state
          = Raise (ValidationError msg)) ∧
  (decision ∈ allowed_next →
   ∃ c, answer_supervisor_node llm_next system_prompt state = Return c) ∧
  (∀ c, answer_supervisor_node llm_next system_prompt state = Return c →
        goto c ∈ ["table_agent"; "analysis_agent"; END] ∧
        update c = {| update_messages := None;
                      update_next := Some (goto c) |}).
Proof.
  intros members decision.
  assert (Hreject : ∀ v, v ∉ allowed_next →
            ∃ msg, Router_validate members v = Raise (ValidationError msg)).
  { intros v Hv. unfold Router_validate, validate_next.
    destruct (decide (v ∈ options members)) as [Hin | _];
      [contradiction | eauto]. }
  assert (Haccept : ∀ v, v ∈ allowed_next →
            Router_validate members v = Return {| Router_next := v |}).
  { intros v Hv. unfold Router_validate, validate_next.
    destruct (decide (v ∈ options members)) as [_ | Hout];
      [reflexivity | contradiction]. }
  split; [reflexivity |]. split; [exact Hreject |]. split; [exact Haccept |].
  unfold answer_supervisor_node, planner_node. fold members. fold decision.
  split; [| split].
  - intros Hout. destruct (Hreject decision Hout) as [msg Hmsg].
    exists msg. rewrite Hmsg. reflexivity.
  - intros Hin. rewrite (Haccept decision Hin). simpl. eauto.
  - intros c Hc. destruct (decide (decision ∈ allowed_next)) as [Hin | Hout].
    + rewrite (Haccept decision Hin) in Hc. simpl in Hc.
      injection Hc as <-. simpl. split; [| reflexivity].
      unfold allowed_next in Hin.
      repeat (apply elem_of_cons in Hin as [-> | Hin]);
        [vm_compute; set_solver .. | inversion Hin].
    + destruct (Hreject decision Hout) as [msg Hmsg].
      rewrite Hmsg in Hc. discriminate.
Qed.

Lemma router_validates_next_witness :
  ∃ msg,
    answer_supervisor_node (fun _ => "summary_agent") (fun _ _ => "Planner")
      {| messages := [AIMessage "hello"]; next := Some "router" |}
    = Raise (ValidationError msg).
Proof.
  destruct (router_validates_next (fun _ => "summary_agent")
              (fun _ _ => "Planner")
              {| messages := [AIMessage "hello"]; next := Some "router" |})
    as (_ & _ & _ & Hreject & _).
  apply Hreject. apply (bool_decide_unpack _). vm_compute. reflexivity.
Defined.

(** ** Workers *)

(** The command a worker sends: back to the router, with one message
    labelled with the worker's name. *)
Definition report (worker : string) (reply : message) : Command :=
  {| goto := "router";
     update := {| update_messages :=
                    Some [HumanMessage (content reply) worker];
                  update_next := None |} |}.

Lemma table_agent_node_spec invoke prompt state :
  table_agent_node invoke prompt state =
  match last (invoke {| messages := SystemMessage prompt :: messages state;
                        next := next state |}) with
  | Some reply => Return (report "table_agent" reply)
  | None => Raise IndexError
  end.
Proof.
  unfold table_agent_node. rewrite py_getitem_last.
  destruct (last _); reflexivity.
Qed.

Lemma analysis_node_spec invoke prompt state :
  analysis_node invoke prompt state =
  match last (invoke {| messages := SystemMessage prompt :: messages state;
                        next := next state |}) with
  | Some reply => Return (report "analysis_agent" reply)
  | None => Raise IndexError
  end.
Proof.
  unfold analysis_node. rewrite py_getitem_last.
  destruct (last _); reflexivity.
Qed.

(** C8. Whenever the agent behind a worker node hands back a transcript
    with a last message, the table agent node and the analysis node each
    return the command whose goto is "router" and whose update is exactly
    one message, labelled with the worker's name and carrying the content
    of that last message; and no command either node returns has another
    goto or writes [next]. *)
Theorem workers_report_back
    (table_agent_invoke analysis_agent_invoke : State → list message)
    (TABLE_AGENT_SYSTEM_PROMPT ANALYSIS_AGENT_SYSTEM_PROMPT : string)
    (state : State) :
  (∀ reply,
     last (table_agent_invoke
             {| messages := SystemMessage TABLE_AGENT_SYSTEM_PROMPT
                            :: messages state;
                next := next state |}) = Some reply →
     table_agent_node table_agent_invoke TABLE_AGENT_SYSTEM_PROMPT state
     = Return (report "table_agent" reply)) ∧
  (∀ reply,
     last (analysis_agent_invoke
             {| messages := SystemMessage ANALYSIS_AGENT_SYSTEM_PROMPT
                            :: messages state;
                next := next state |}) = Some reply →
     analysis_node analysis_agent_invoke ANALYSIS_AGENT_SYSTEM_PROMPT state
     = Return (report "analysis_agent" reply)) ∧
  (∀ c,
     table_agent_node table_agent_invoke TABLE_AGENT_SYSTEM_PROMPT state
     = Return c →
     goto c = "router" ∧ update_next (update c) = None ∧
     ∃ m, update_messages (update c) = Some [m] ∧
          name m = Some "table_agent") ∧
  (∀ c,
     analysis_node analysis_agent_invoke ANALYSIS_AGENT_SYSTEM_PROMPT state
     = Return c →
     goto c = "router" ∧ update_next (update c) = None ∧
     ∃ m, update_messages (update c) = Some [m] ∧
          name m = Some "analysis_agent").
Proof.
  rewrite table_agent_node_spec, analysis_node_spec.
  split; [| split; [| split]].
  - intros reply ->. reflexivity.
  - intros reply ->. reflexivity.
  - intros c Hc. destruct (last _) as [reply |]; [| discriminate].
    injection Hc as <-. simpl. eauto.
  - intros c Hc. destruct (last _) as [reply |]; [| discriminate].
    injection Hc as <-. simpl. eauto.
Qed.

Lemma workers_report_back_witness :
  table_agent_node (fun s => (messages s ++ [AIMessage "{}"])%list) "Table agent"
    {| messages := [AIMessage "hello"]; next := Some "table_agent" |}
  = Return {| goto := "router";
              update := {| update_messages :=
                             Some [HumanMessage "{}" "table_agent"];
                           update_next := None |} |}.
Proof.
  destruct (workers_report_back
              (fun s => (messages s ++ [AIMessage "{}"])%list)
              (fun s => (messages s ++ [AIMessage "{}"])%list)
              "Table agent" "Analysis agent"
              {| messages := [AIMessage "hello"];
                 next := Some "table_agent" |})
    as (Htable & _).
  apply (Htable (AIMessage "{}")). reflexivity.
Defined.

(** * Further properties of the tools *)

(** ** Inversion of computations *)

Lemma bind_Return_inv {A B} (m : result A) (f : A → result B) b :
  m ≫= f = Return b → ∃ a, m = Return a ∧ f a = Return b.
Proof. destruct m as [a | e]; simpl; [eauto | discriminate]. Qed.





Lemma comprehension_lookup {A B} (f : A → result B) xs ys (p : nat) x :
  comprehension f xs = Return ys → xs !! p = Some x →
  ∃ y, f x = Return y ∧ ys !! p = Some y.
Proof.
  revert ys p. induction xs as [| x0 xs IH]; intros ys p Hc Hp;
    [discriminate |].
  simpl in Hc. apply bind_Return_inv in Hc as (y0 & Hy0 & Hc).
  apply bind_Return_inv in Hc as (ys' & Hys' & Hc). injection Hc as <-.
  destruct p as [| p]; simpl in Hp.
  - injection Hp as <-. eauto.
  - apply (IH ys' p Hys' Hp).
Qed.

(** The position a Python index denotes in a list of length [n]. *)
Definition position (n : nat) (i : Z) : nat :=
  Z.to_nat (if i <? 0 then i + Z.of_nat n else i).

Lemma py_getitem_in_range {A} (l : list A) (i : Z) :
  - Z.of_nat (length l) ≤ i → i < Z.of_nat (length l) →
  ∃ x, l !! position (length l) i = Some x ∧ py_getitem l i = Return x.
Proof.
  intros Hlo Hhi.
  destruct (lookup_lt_is_Some_2 l (position (length l) i)) as [x Hx].
  { unfold position. case_bounds. }
  exists x. split; [exact Hx |].
  unfold py_getitem. cbv zeta. unfold position in Hx. revert Hx.
  case_bounds; intros ->; reflexivity.
Qed.

Lemma py_getitem_below {A} (l : list A) (i : Z) :
  i < - Z.of_nat (length l) → py_getitem l i = Raise IndexError.
Proof.
  intros Hlo. unfold py_getitem. cbv zeta. case_bounds; reflexivity.
Qed.

Lemma heads_lookup (entries : list (list item)) (j : nat) :
  entries_ok entries → omap head entries !! j = entries !! j ≫= head.
Proof.
  intros Hok. revert j.
  induction Hok as [| e entries He _ IH]; intros j; [reflexivity |].
  destruct e as [| x e]; [contradiction |]. simpl.
  destruct j as [| j]; [reflexivity | apply IH].
Qed.

Lemma comprehension_heads_inv (entries : list (list item)) names :
  comprehension (fun e => py_getitem e 0) entries = Return names →
  entries_ok entries ∧ names = omap head entries.
Proof.
  revert names. induction entries as [| e entries IH]; intros names Hc.
  - injection Hc as <-. split; [constructor | reflexivity].
  - simpl in Hc. apply bind_Return_inv in Hc as (x & Hx & Hc).
    apply bind_Return_inv in Hc as (names' & Hnames & Hc).
    injection Hc as <-. destruct (IH names' Hnames) as [Hok ->].
    destruct e as [| x' e]; [discriminate |]. injection Hx as ->.
    split; [constructor; [discriminate | exact Hok] | reflexivity].
Qed.

Lemma first_index_leftmost names c k i :
  first_index names c k = Some i →
  ∀ j, (k ≤ j < i)%nat → names !! (j - k)%nat ≠ Some (Text c).
Proof.
  revert k. induction names as [| name names IH]; intros k Hf j Hj;
    simpl in Hf; [discriminate |].
  destruct (decide (name = Text c)) as [-> | Hne].
  - injection Hf as <-. lia.
  - destruct (decide (j = k)) as [-> | Hjk].
    + replace (k - k)%nat with 0%nat by lia. simpl. congruence.
    + replace (j - k)%nat with (S (j - S k)) by lia. simpl.
      apply (IH (S k) Hf). lia.
Qed.

Lemma first_index_missing names c k :
  Text c ∉ names → first_index names c k = None.
Proof.
  revert k. induction names as [| name names IH]; intros k Hnot; simpl.
  - reflexivity.
  - destruct (decide (name = Text c)) as [-> | Hne].
    + exfalso. apply Hnot. left.
    + apply IH. intros Hin. apply Hnot. right. exact Hin.
Qed.

(** ** Unknown columns and unreadable files *)

(** X1. For a stored table whose header entries all carry a name, a
    column name that is not in the header makes [get_column] and, for
    every row index (in range or not), [get_cell] return the failure
    mapping with "ok" false, the error "Column '<name>' not found" and
    the echoed uid and column name. *)
Theorem missing_column_fails (storage : Storage) (table_uid : string)
    (table : Table) (column_name : string) :
  get_table storage table_uid = Return table →
  entries_ok (header table) →
  ¬ has_column table column_name →
  get_column storage table_uid column_name
  = Return [("ok", VBool false);
            ("error", VStr (column_not_found column_name));
            ("table_uid", VStr table_uid);
            ("column_name", VStr column_name)] ∧
  ∀ row_index,
    get_cell storage table_uid row_index column_name
    = Return [("ok", VBool false);
              ("error", VStr (column_not_found column_name));
              ("table_uid", VStr table_uid);
              ("column_name", VStr column_name)].
Proof.
  intros Hget Hheader Hmissing.
  assert (Hindex : _get_column_index table column_name
                   = Raise (ValueError (column_not_found column_name))).
  { rewrite get_column_index_wf by exact Hheader. unfold column_index.
    rewrite first_index_missing by exact Hmissing. reflexivity. }
  unfold get_column, get_cell. rewrite Hget. simpl. rewrite Hindex.
  split; [reflexivity | intros row_index; reflexivity].
Qed.

Lemma missing_column_fails_witness :
  get_column T1_storage "T1" "Country"
  = Return [("ok", VBool false);
            ("error", VStr (column_not_found "Country"));
            ("table_uid", VStr "T1");
            ("column_name", VStr "Country")] ∧
  ∀ row_index,
    get_cell T1_storage "T1" row_index "Country"
    = Return [("ok", VBool false);
              ("error", VStr (column_not_found "Country"));
              ("table_uid", VStr "T1");
              ("column_name", VStr "Country")].
Proof.
  apply (missing_column_fails T1_storage "T1" T1 "Country").
  - reflexivity.
  - vm_compute. repeat constructor; discriminate.
  - apply (bool_decide_unpack _). vm_compute. reflexivity.
Defined.

(** X2. When the uid is registered but its file cannot be opened, each
    of the five table tools raises FileNotFoundError: the handlers catch
    ValueError only, so no failure mapping is returned. *)
Theorem missing_file_raises (storage : Storage) (table_uid path : string) :
  tables storage !! table_uid = Some path →
  files storage !! path = None →
  get_table_metadata storage table_uid = Raise (FileNotFoundError path) ∧
  (∀ column_name,
     get_column storage table_uid column_name
     = Raise (FileNotFoundError path)) ∧
  (∀ row_index,
     get_row_by_index storage table_uid row_index
     = Raise (FileNotFoundError path)) ∧
  (∀ row_index column_name,
     get_cell storage table_uid row_index column_name
     = Raise (FileNotFoundError path)) ∧
  (∀ conditions,
     find_rows_by_value storage table_uid conditions
     = Raise (FileNotFoundError path)).
Proof.
  intros Hpath Hfile.
  assert (Hget : get_table storage table_uid
                 = Raise (FileNotFoundError path)).
  { unfold get_table. rewrite Hpath, Hfile. reflexivity. }
  unfold get_table_metadata, get_column, get_row_by_index, get_cell,
    find_rows_by_value.
  rewrite Hget. repeat split.
Qed.

Definition T1_unreadable : Storage :=
  {| tables := {[ "T1" := T1_path ]}; files := ∅ |}.

Lemma missing_file_raises_witness :
  get_table_metadata T1_unreadable "T1" = Raise (FileNotFoundError T1_path).
Proof.
  destruct (missing_file_raises T1_unreadable "T1" T1_path) as [Hm _].
  - reflexivity.
  - reflexivity.
  - exact Hm.
Defined.

(** ** Rows, cells and columns read the same table *)

(** X3. On a stored, well-formed table with n rows, [get_row_by_index]
    with 0 <= row_index < n returns the texts of that row, one per
    column of the header; with row_index < -n it raises IndexError. *)
Theorem get_row_by_index_in_range (storage : Storage) (table_uid : string)
    (table : Table) (row_index : Z) :
  get_table storage table_uid = Return table →
  table_wf table →
  (0 ≤ row_index < Z.of_nat (length (data table)) →
   ∃ row,
     data table !! Z.to_nat row_index = Some row ∧
     get_row_by_index storage table_uid row_index
     = Return [("ok", VBool true); ("row", VItems (omap head row))] ∧
     length (omap head row) = length (header table)) ∧
  (row_index < - Z.of_nat (length (data table)) →
   get_row_by_index storage table_uid row_index = Raise IndexError).
Proof.
  intros Hget [_ Hrows]. split.
  - intros [Hlo Hhi].
    destruct (py_getitem_in_range (data table) row_index)
      as (row & Hrow & Hitem); [lia | lia |].
    unfold position in Hrow.
    destruct (Z.ltb_spec row_index 0) as [Hneg | _]; [lia |].
    rewrite Forall_forall in Hrows.
    destruct (Hrows row) as [Hlen Hcells].
    { apply list_elem_of_lookup. eauto. }
    exists row. split; [exact Hrow |]. split.
    + unfold get_row_by_index. rewrite Hget. simpl. rewrite Hitem. simpl.
      rewrite comprehension_heads by exact Hcells. reflexivity.
    + rewrite heads_length by exact Hcells. exact Hlen.
  - intros Hbelow. unfold get_row_by_index. rewrite Hget. simpl.
    rewrite py_getitem_below by exact Hbelow. reflexivity.
Qed.

Lemma get_row_by_index_in_range_witness :
  (∃ row,
     data T1 !! Z.to_nat 1 = Some row ∧
     get_row_by_index T1_storage "T1" 1
     = Return [("ok", VBool true); ("row", VItems (omap head row))] ∧
     length (omap head row) = length (header T1)) ∧
  get_row_by_index T1_storage "T1" (-3) = Raise IndexError.
Proof.
  split.
  - apply (get_row_by_index_in_range T1_storage "T1" T1 1);
      [reflexivity | exact T1_wf | simpl; lia].
  - apply (get_row_by_index_in_range T1_storage "T1" T1 (-3));
      [reflexivity | exact T1_wf | simpl; lia].
Defined.

Lemma column_cells (t : Table) (j : nat) cells :
  comprehension (fun row => cell_text row j) (data t) = Return cells →
  ∀ (i : nat) row, data t !! i = Some row → cells !! i = cell_at row j.
Proof.
  intros Hcells i row Hrow.
  destruct (comprehension_lookup _ _ _ _ _ Hcells Hrow) as (x & Hx & Hi).
  rewrite cell_text_spec in Hx.
  destruct (cell_at row j) as [y |]; [| discriminate]. congruence.
Qed.

(** X4. On a stored, well-formed table, [get_column] for a column of the
    header reads the leftmost header position carrying that name, and
    its "cells" list holds, row by row, the text of the cell at that
    position. *)
Theorem get_column_leftmost (storage : Storage) (table_uid : string)
    (table : Table) (column_name : string) :
  get_table storage table_uid = Return table →
  table_wf table →
  has_column table column_name →
  ∃ (j : nat) cells,
    columns table !! j = Some (Text column_name) ∧
    (∀ j' : nat, (j' < j)%nat → columns table !! j' ≠ Some (Text column_name)) ∧
    get_column storage table_uid column_name
    = Return [("ok", VBool true); ("cells", VItems cells)] ∧
    ∀ (i : nat) row, data table !! i = Some row →
                     cells !! i = row !! j ≫= head.
Proof.
  intros Hget [Hheader Hrows] Hcol.
  destruct (column_index_has_column table column_name Hheader Hcol)
    as (j & Hj & Hlt).
  destruct (comprehension_succeeds (fun row => cell_text row j) (data table))
    as [cells Hcells].
  { eapply Forall_impl; [exact Hrows |]. intros row Hrow.
    destruct (cell_text_wf table row j Hrow Hlt) as (x & _ & Hx). eauto. }
  exists j, cells. unfold column_index in Hj. split; [| split; [| split]].
  - destruct (first_index_bounds _ _ _ _ Hj) as [_ Hl].
    replace (j - 0)%nat with j in Hl by lia. exact Hl.
  - intros j' Hj'. pose proof (first_index_leftmost _ _ _ _ Hj j') as Hl.
    replace (j' - 0)%nat with j' in Hl by lia. apply Hl. lia.
  - unfold get_column. rewrite Hget. simpl.
    rewrite get_column_index_wf by exact Hheader. unfold column_index.
    rewrite Hj. simpl. rewrite Hcells. reflexivity.
  - apply (column_cells table j cells Hcells).
Qed.

(** Two columns named City: the left one answers. *)
Definition T2 : Table :=
  {| title := "T2";
     header := [cell "City"; cell "City"];
     data := [[cell "NYC"; cell "Boston"]; [cell "LA"; cell "Reno"]] |}.

Definition T2_storage : Storage :=
  {| tables := {[ "T2" := "T2.json" ]}; files := {[ "T2.json" := T2 ]} |}.

Lemma T2_wf : table_wf T2.
Proof. vm_compute. repeat constructor; discriminate. Qed.

Lemma get_column_leftmost_witness :
  ∃ (j : nat) cells,
    columns T2 !! j = Some (Text "City") ∧
    (∀ j' : nat, (j' < j)%nat → columns T2 !! j' ≠ Some (Text "City")) ∧
    get_column T2_storage "T2" "City"
    = Return [("ok", VBool true); ("cells", VItems cells)] ∧
    ∀ (i : nat) row, data T2 !! i = Some row → cells !! i = row !! j ≫= head.
Proof.
  apply (get_column_leftmost T2_storage "T2" T2 "City").
  - reflexivity.
  - exact T2_wf.
  - apply (bool_decide_unpack _). vm_compute. reflexivity.
Defined.

(** X5. On a stored, well-formed table with n rows, for a column of the
    header and -n <= row_index < n, [get_cell] returns the value that
    [get_column] holds at that index of "cells" and that
    [get_row_by_index] holds in "row" at the column's position. *)
Theorem get_cell_agrees (storage : Storage) (table_uid : string)
    (table : Table) (row_index : Z) (column_name : string) :
  get_table storage table_uid = Return table →
  table_wf table →
  has_column table column_name →
  - Z.of_nat (length (data table)) ≤ row_index →
  row_index < Z.of_nat (length (data table)) →
  ∃ x cells row (j : nat),
    get_cell storage table_uid row_index column_name
    = Return [("ok", VBool true); ("cell", VItem x)] ∧
    get_column storage table_uid column_name
    = Return [("ok", VBool true); ("cells", VItems cells)] ∧
    py_getitem cells row_index = Return x ∧
    get_row_by_index storage table_uid row_index
    = Return [("ok", VBool true); ("row", VItems row)] ∧
    _get_column_index table column_name = Return j ∧
    row !! j = Some x.
Proof.
  intros Hget [Hheader Hrows] Hcol Hlo Hhi.
  destruct (column_index_has_column table column_name Hheader Hcol)
    as (j & Hj & Hlt).
  assert (Hindex : _get_column_index table column_name = Return j).
  { rewrite get_column_index_wf by exact Hheader. rewrite Hj. reflexivity. }
  destruct (comprehension_succeeds (fun row => cell_text row j) (data table))
    as [cells Hcells].
  { eapply Forall_impl; [exact Hrows |]. intros row Hrow.
    destruct (cell_text_wf table row j Hrow Hlt) as (x & _ & Hx). eauto. }
  pose proof (comprehension_length _ _ _ Hcells) as Hlen.
  destruct (py_getitem_in_range (data table) row_index Hlo Hhi)
    as (r & Hr & Hitem).
  rewrite Forall_forall in Hrows.
  assert (Hrow : length r = length (header table) ∧ entries_ok r).
  { apply Hrows. apply list_elem_of_lookup. eauto. }
  destruct (cell_text_wf table r j Hrow Hlt) as (x & Hcell & Hx).
  exists x, cells, (omap head r), j.
  split; [| split; [| split; [| split; [| split]]]].
  - unfold get_cell. rewrite Hget. simpl. rewrite Hindex. simpl.
    rewrite Hitem. simpl. rewrite Hx. reflexivity.
  - unfold get_column. rewrite Hget. simpl. rewrite Hindex. simpl.
    rewrite Hcells. reflexivity.
  - destruct (py_getitem_in_range cells row_index) as (y & Hy & Hcy);
      [lia | lia |].
    rewrite Hcy. f_equal. rewrite Hlen in Hy.
    rewrite (column_cells table j cells Hcells _ r Hr) in Hy. congruence.
  - unfold get_row_by_index. rewrite Hget. simpl. rewrite Hitem. simpl.
    rewrite comprehension_heads by apply Hrow. reflexivity.
  - exact Hindex.
  - rewrite heads_lookup by apply Hrow. exact Hcell.
Qed.

Lemma get_cell_agrees_witness :
  ∃ x cells row (j : nat),
    get_cell T1_storage "T1" (-1) "City"
    = Return [("ok", VBool true); ("cell", VItem x)] ∧
    get_column T1_storage "T1" "City"
    = Return [("ok", VBool true); ("cells", VItems cells)] ∧
    py_getitem cells (-1) = Return x ∧
    get_row_by_index T1_storage "T1" (-1)
    = Return [("ok", VBool true); ("row", VItems row)] ∧
    _get_column_index T1 "City" = Return j ∧
    row !! j = Some x.
Proof.
  apply (get_cell_agrees T1_storage "T1" T1 (-1) "City").
  - reflexivity.
  - exact T1_wf.
  - apply (bool_decide_unpack _). vm_compute. reflexivity.
  - simpl. lia.
  - simpl. lia.
Defined.

(** X6. On a stored table whose header entries all carry a name, for a
    column of the header and a row index outside [-n, n), [get_cell]
    raises IndexError instead of returning a failure mapping. *)
Theorem get_cell_out_of_range (storage : Storage) (table_uid : string)
    (table : Table) (row_index : Z) (column_name : string) :
  get_table storage table_uid = Return table →
  entries_ok (header table) →
  has_column table column_name →
  row_index < - Z.of_nat (length (data table))
  ∨ Z.of_nat (length (data table)) ≤ row_index →
  get_cell storage table_uid row_index column_name = Raise IndexError.
Proof.
  intros Hget Hheader Hcol Hout.
  destruct (column_index_has_column table column_name Hheader Hcol)
    as (j & Hj & _).
  unfold get_cell. rewrite Hget. simpl.
  rewrite get_column_index_wf by exact Hheader. rewrite Hj. simpl.
  destruct Hout as [Hbelow | Habove].
  - rewrite py_getitem_below by exact Hbelow. reflexivity.
  - rewrite py_getitem_out_of_range by exact Habove. reflexivity.
Qed.

Lemma get_cell_out_of_range_witness :
  get_cell T1_storage "T1" 2 "City" = Raise IndexError.
Proof.
  apply (get_cell_out_of_range T1_storage "T1" T1 2 "City").
  - reflexivity.
  - vm_compute. repeat constructor; discriminate.
  - apply (bool_decide_unpack _). vm_compute. reflexivity.
  - right. simpl. lia.
Defined.

(** ** What the row search returns *)

Lemma passed_le t row conditions :
  (passed t row conditions ≤ length conditions)%nat.
Proof.
  induction conditions as [| cv conditions IH]; simpl; [lia |].
  destruct (condition_holds t row cv); lia.
Qed.

Lemma appended_bounds t rows k conditions :
  Forall (fun x => (k ≤ x < k + length rows)%nat)
         (appended t rows k conditions).
Proof.
  revert k. induction rows as [| row rows IH]; intros k; simpl.
  - constructor.
  - apply Forall_app. split.
    + apply Forall_replicate. lia.
    + eapply Forall_impl; [apply (IH (S k)) |]. simpl. intros x Hx. lia.
Qed.

Lemma appended_sorted t rows k conditions :
  StronglySorted le (appended t rows k conditions).
Proof.
  revert k. induction rows as [| row rows IH]; intros k; simpl.
  - constructor.
  - apply StronglySorted_app_2.
    + intros x1 x2 Hx1 Hx2. apply elem_of_replicate in Hx1 as [-> _].
      pose proof (appended_bounds t rows (S k) conditions) as Hb.
      rewrite Forall_forall in Hb. specialize (Hb x2 Hx2). lia.
    + induction (passed t row conditions) as [| n IHn]; simpl.
      * constructor.
      * constructor; [exact IHn | apply Forall_replicate; lia].
    + apply IH.
Qed.

Lemma appended_length t rows k conditions :
  (length (appended t rows k conditions)
   ≤ length rows * length conditions)%nat.
Proof.
  revert k. induction rows as [| row rows IH]; intros k; simpl; [lia |].
  rewrite length_app, length_replicate.
  pose proof (passed_le t row conditions). specialize (IH (S k)). lia.
Qed.

Lemma elem_of_appended t rows conditions (i : nat) :
  i ∈ appended t rows 0 conditions ↔
  ∃ row, rows !! i = Some row ∧ (0 < passed t row conditions)%nat.
Proof.
  rewrite list_elem_of_In, (count_occ_In Nat.eq_dec).
  destruct (rows !! i) as [row |] eqn:Hrow.
  - rewrite (count_occ_appended t rows 0 conditions i row);
      [| lia | replace (i - 0)%nat with i by lia; exact Hrow].
    split.
    + intros Hpos. exists row. split; [reflexivity | lia].
    + intros (row' & Heq & Hpos). injection Heq as <-. lia.
  - split.
    + intros Hpos. exfalso.
      apply (count_occ_In Nat.eq_dec), list_elem_of_In in Hpos.
      pose proof (appended_bounds t rows 0 conditions) as Hb.
      rewrite Forall_forall in Hb. specialize (Hb i Hpos).
      apply lookup_ge_None in Hrow. lia.
    + intros (row & Heq & _). discriminate.
Qed.

(** X7. On a stored, well-formed table and a non-empty conditions
    mapping over columns of the header, a row index is in the returned
    list exactly when the row satisfies the first condition; the later
    conditions do not decide membership. *)
Theorem find_rows_by_value_first_condition (storage : Storage)
    (table_uid : string) (table : Table) (first : string * string)
    (rest : list (string * string)) :
  get_table storage table_uid = Return table →
  table_wf table →
  Forall (fun condition => has_column table condition.1) (first :: rest) →
  ∃ row_indices : list nat,
    find_rows_by_value storage table_uid (first :: rest)
    = Return [("ok", VBool true);
              ("row indices", VInts (Z.of_nat <$> row_indices))] ∧
    ∀ i : nat,
      i ∈ row_indices ↔
      ∃ row, data table !! i = Some row ∧
             condition_holds table row first = true.
Proof.
  intros Hget Hwf Hcols.
  exists (appended table (data table) 0 (first :: rest)).
  split; [apply (find_rows_by_value_wf _ _ _ _ Hget Hwf Hcols) |].
  intros i. rewrite elem_of_appended. simpl.
  split; intros (row & Hrow & Hp); exists row; (split; [exact Hrow |]).
  - destruct (condition_holds table row first); [reflexivity | lia].
  - rewrite Hp. lia.
Qed.

Lemma find_rows_by_value_first_condition_witness :
  ∃ row_indices : list nat,
    find_rows_by_value T1_storage "T1" [("City", "LA"); ("Name", "Alice")]
    = Return [("ok", VBool true);
              ("row indices", VInts (Z.of_nat <$> row_indices))] ∧
    ∀ i : nat,
      i ∈ row_indices ↔
      ∃ row, data T1 !! i = Some row ∧
             condition_holds T1 row ("City", "LA") = true.
Proof.
  apply (find_rows_by_value_first_condition T1_storage "T1" T1).
  - reflexivity.
  - exact T1_wf.
  - vm_compute. repeat constructor.
Defined.

(** X8. On a stored, well-formed table and conditions over columns of
    the header, the returned row indices are in non-decreasing order,
    each is a valid row index of the table, and there are at most
    (number of rows) x (number of conditions) of them. *)
Theorem find_rows_by_value_ordered (storage : Storage) (table_uid : string)
    (table : Table) (conditions : list (string * string)) :
  get_table storage table_uid = Return table →
  table_wf table →
  Forall (fun condition => has_column table condition.1) conditions →
  ∃ row_indices : list nat,
    find_rows_by_value storage table_uid conditions
    = Return [("ok", VBool true);
              ("row indices", VInts (Z.of_nat <$> row_indices))] ∧
    StronglySorted le row_indices ∧
    Forall (fun i => (i < length (data table))%nat) row_indices ∧
    (length row_indices ≤ length (data table) * length conditions)%nat.
Proof.
  intros Hget Hwf Hcols.
  exists (appended table (data table) 0 conditions).
  split; [apply (find_rows_by_value_wf _ _ _ _ Hget Hwf Hcols) |].
  split; [apply appended_sorted |]. split; [| apply appended_length].
  eapply Forall_impl; [apply appended_bounds |]. simpl. intros i Hi. lia.
Qed.

Lemma find_rows_by_value_ordered_witness :
  ∃ row_indices : list nat,
    find_rows_by_value T1_storage "T1" [("Name", "Alice"); ("City", "NYC")]
    = Return [("ok", VBool true);
              ("row indices", VInts (Z.of_nat <$> row_indices))] ∧
    StronglySorted le row_indices ∧
    Forall (fun i => (i < length (data T1))%nat) row_indices ∧
    (length row_indices ≤ length (data T1) * 2)%nat.
Proof.
  apply (find_rows_by_value_ordered T1_storage "T1" T1
           [("Name", "Alice"); ("City", "NYC")]).
  - reflexivity.
  - exact T1_wf.
  - vm_compute. repeat constructor.
Defined.

(** X9. With exactly one condition, on a stored, well-formed table and a
    column of the header, the returned list has no repetition and holds
    exactly the indices of the rows whose cell in that column equals the
    expected text. *)
Theorem find_rows_by_value_single_condition (storage : Storage)
    (table_uid : string) (table : Table) (column_name value : string) :
  get_table storage table_uid = Return table →
  table_wf table →
  has_column table column_name →
  ∃ row_indices : list nat,
    find_rows_by_value storage table_uid [(column_name, value)]
    = Return [("ok", VBool true);
              ("row indices", VInts (Z.of_nat <$> row_indices))] ∧
    NoDup row_indices ∧
    ∀ i : nat,
      i ∈ row_indices ↔
      ∃ row (j : nat),
        data table !! i = Some row ∧
        _get_column_index table column_name = Return j ∧
        row !! j ≫= head = Some (Text value).
Proof.
  intros Hget Hwf Hcol.
  assert (Hcols : Forall (fun condition => has_column table condition.1)
                         [(column_name, value)]).
  { constructor; [exact Hcol | constructor]. }
  destruct (column_index_has_column table column_name (proj1 Hwf) Hcol)
    as (j & Hj & _).
  assert (Hindex : _get_column_index table column_name = Return j).
  { rewrite get_column_index_wf by apply Hwf. rewrite Hj. reflexivity. }
  exists (appended table (data table) 0 [(column_name, value)]).
  split; [apply (find_rows_by_value_wf _ _ _ _ Hget Hwf Hcols) |]. split.
  - apply NoDup_ListNoDup, (NoDup_count_occ Nat.eq_dec). intros i.
    destruct (data table !! i) as [row |] eqn:Hrow.
    + rewrite (count_occ_appended table (data table) 0 _ i row);
        [| lia | replace (i - 0)%nat with i by lia; exact Hrow].
      apply (passed_le table row [(column_name, value)]).
    + replace (count_occ Nat.eq_dec
                 (appended table (data table) 0 [(column_name, value)]) i)
        with 0%nat; [lia |].
      symmetry. apply (count_occ_not_In Nat.eq_dec).
      rewrite <- list_elem_of_In, elem_of_appended.
      intros (row & Heq & _). congruence.
  - intros i. rewrite elem_of_appended. simpl.
    unfold condition_holds. simpl. rewrite Hj. simpl. unfold cell_at.
    split.
    + intros (row & Hrow & Hp). exists row, j.
      split; [exact Hrow |]. split; [exact Hindex |].
      destruct (bool_decide _) eqn:Hd; [| lia].
      apply bool_decide_eq_true_1 in Hd. exact Hd.
    + intros (row & j' & Hrow & Hj' & Hcell).
      rewrite Hindex in Hj'. injection Hj' as <-.
      exists row. split; [exact Hrow |].
      rewrite bool_decide_eq_true_2 by exact Hcell. lia.
Qed.

Lemma find_rows_by_value_single_condition_witness :
  ∃ row_indices : list nat,
    find_rows_by_value T1_storage "T1" [("City", "LA")]
    = Return [("ok", VBool true);
              ("row indices", VInts (Z.of_nat <$> row_indices))] ∧
    NoDup row_indices ∧
    ∀ i : nat,
      i ∈ row_indices ↔
      ∃ row (j : nat),
        data T1 !! i = Some row ∧
        _get_column_index T1 "City" = Return j ∧
        row !! j ≫= head = Some (Text "LA").
Proof.
  apply (find_rows_by_value_single_condition T1_storage "T1" T1 "City" "LA").
  - reflexivity.
  - exact T1_wf.
  - apply (bool_decide_unpack _). vm_compute. reflexivity.
Defined.

(** A table with the scenario's header and no row. *)
Definition T0 : Table :=
  {| title := "T0"; header := [cell "Name"; cell "City"]; data := [] |}.

Definition T0_storage : Storage :=
  {| tables := {[ "T0" := "T0.json" ]}; files := {[ "T0.json" := T0 ]} |}.

(** X10. For a stored table whose header entries all carry a name and a
    conditions mapping whose first column is not in the header,
    [find_rows_by_value] returns the failure mapping "Column '<name>' not
    found" with the echoed uid and conditions when the table has a row,
    and the success mapping with no row index when the table has none:
    the column is looked up per row, never up front. *)
Theorem find_rows_by_value_unknown_column (storage : Storage)
    (table_uid : string) (table : Table) (column_name value : string)
    (rest : list (string * string)) :
  get_table storage table_uid = Return table →
  entries_ok (header table) →
  ¬ has_column table column_name →
  (data table ≠ [] →
   find_rows_by_value storage table_uid ((column_name, value) :: rest)
   = Return [("ok", VBool false);
             ("error", VStr (column_not_found column_name));
             ("table_uid", VStr table_uid);
             ("conditions", VDict ((column_name, value) :: rest))]) ∧
  (data table = [] →
   find_rows_by_value storage table_uid ((column_name, value) :: rest)
   = Return [("ok", VBool true); ("row indices", VInts [])]).
Proof.
  intros Hget Hheader Hmissing.
  assert (Hindex : _get_column_index table column_name
                   = Raise (ValueError (column_not_found column_name))).
  { rewrite get_column_index_wf by exact Hheader. unfold column_index.
    rewrite first_index_missing by exact Hmissing. reflexivity. }
  unfold find_rows_by_value. rewrite Hget. simpl. split.
  - destruct (data table) as [| row rows]; [congruence |]. intros _.
    simpl. rewrite Hindex. reflexivity.
  - intros ->. reflexivity.
Qed.

Lemma find_rows_by_value_unknown_column_witness :
  find_rows_by_value T1_storage "T1" [("Country", "US"); ("City", "LA")]
  = Return [("ok", VBool false);
            ("error", VStr (column_not_found "Country"));
            ("table_uid", VStr "T1");
            ("conditions", VDict [("Country", "US"); ("City", "LA")])] ∧
  find_rows_by_value T0_storage "T0" [("Country", "US"); ("City", "LA")]
  = Return [("ok", VBool true); ("row indices", VInts [])].
Proof.
  split.
  - apply (find_rows_by_value_unknown_column T1_storage "T1" T1).
    + reflexivity.
    + vm_compute. repeat constructor; discriminate.
    + apply (bool_decide_unpack _). vm_compute. reflexivity.
    + simpl. discriminate.
  - apply (find_rows_by_value_unknown_column T0_storage "T0" T0).
    + reflexivity.
    + vm_compute. repeat constructor; discriminate.
    + apply (bool_decide_unpack _). vm_compute. reflexivity.
    + reflexivity.
Defined.

Lemma scan_rows_first_fails t rows k first rest acc :
  entries_ok (header t) →
  has_column t first.1 →
  Forall (fun row => (length row = length (header t) ∧ entries_ok row) ∧
                     condition_holds t row first = false) rows →
  scan_rows t rows k (first :: rest) acc = Return acc.
Proof.
  intros Hheader Hcol Hrows. revert k acc.
  destruct first as [c v]. simpl in Hcol.
  destruct (column_index_has_column t c Hheader Hcol) as (j & Hj & Hlt).
  induction Hrows as [| row rows [Hrow Hfails] _ IH]; intros k acc;
    [reflexivity |].
  simpl. rewrite get_column_index_wf by exact Hheader. rewrite Hj. simpl.
  destruct (cell_text_wf t row j Hrow Hlt) as (x & Hcell & Hx).
  rewrite Hx. simpl.
  unfold condition_holds in Hfails. simpl in Hfails.
  rewrite Hj in Hfails. simpl in Hfails. rewrite Hcell in Hfails.
  apply bool_decide_eq_false_1 in Hfails.
  destruct (decide (x ≠ Text v)) as [_ | Heq].
  - simpl. apply IH.
  - exfalso. apply Heq. congruence.
Qed.

(** X11. On a stored, well-formed table, when the first condition names
    a column of the header and holds of no row, the result is the success
    mapping with no row index whatever the later conditions are: they
    are not inspected, so a later column that is not in the header goes
    unreported. *)
Theorem find_rows_by_value_short_circuit (storage : Storage)
    (table_uid : string) (table : Table) (first : string * string)
    (rest : list (string * string)) :
  get_table storage table_uid = Return table →
  table_wf table →
  has_column table first.1 →
  Forall (fun row => condition_holds table row first = false) (data table) →
  find_rows_by_value storage table_uid (first :: rest)
  = Return [("ok", VBool true); ("row indices", VInts [])].
Proof.
  intros Hget [Hheader Hrows] Hcol Hnone.
  unfold find_rows_by_value. rewrite Hget. simpl.
  rewrite scan_rows_first_fails; [reflexivity | exact Hheader | exact Hcol |].
  rewrite Forall_forall in *. intros row Hin. split; auto.
Qed.

Lemma find_rows_by_value_short_circuit_witness :
  find_rows_by_value T1_storage "T1" [("Name", "Carol"); ("Country", "US")]
  = Return [("ok", VBool true); ("row indices", VInts [])].
Proof.
  apply (find_rows_by_value_short_circuit T1_storage "T1" T1).
  - reflexivity.
  - exact T1_wf.
  - apply (bool_decide_unpack _). vm_compute. reflexivity.
  - vm_compute. repeat constructor.
Defined.

(** ** The two shapes of a tool result *)















(** * Further properties of the planner and the graph *)

Lemma planner_node_inv llm_next members prompt state :
  let v := llm_next (SystemMessage prompt :: messages state) in
  planner_node llm_next members prompt state =
  if decide (v ∈ options members)
  then let goto := if String.eqb v "FINISH" then END else v in
       Return {| goto := goto;
                 update := {| update_messages := None;
                              update_next := Some goto |} |}
  else Raise (ValidationError ("next must be one of "
                               +:+ repr_names (options members)
                               +:+ ", got " +:+ v)).
Proof.
  intros v. unfold planner_node, Router_validate, validate_next. fold v.
  destruct (decide (v ∈ options members)); reflexivity.
Qed.

Lemma py_getitem_second {A} (l : list A) :
  py_getitem l 1 =
  match l !! 1%nat with Some x => Return x | None => Raise IndexError end.
Proof. exact (py_getitem_nat l 1). Qed.

(** X13. [make_planner_node] raises IndexError for a members list of
    fewer than two names (the prompt text reads members[0] and
    members[1]); for two or more it returns a node, and every command
    that node returns has its goto among the end sentinel and the
    members, never the text FINISH, and writes that goto to [next]. *)
Theorem make_planner_node_members (llm_next : list message → string)
    (system_prompt : string → string → string) (members : list string) :
  ((length members < 2)%nat →
   make_planner_node llm_next system_prompt members = Raise IndexError) ∧
  ((2 ≤ length members)%nat →
   ∃ node,
     make_planner_node llm_next system_prompt members = Return node ∧
     ∀ state c,
       node state = Return c →
       goto c ∈ END :: members ∧ goto c ≠ "FINISH" ∧
       update c = {| update_messages := None;
                     update_next := Some (goto c) |}).
Proof.
  unfold make_planner_node. split.
  - intros Hshort. destruct members as [| m0 [| m1 members]];
      [reflexivity | reflexivity | simpl in Hshort; lia].
  - intros Hlong. destruct members as [| m0 [| m1 members]];
      [simpl in Hlong; lia | simpl in Hlong; lia |].
    rewrite py_getitem_head, py_getitem_second. simpl.
    eexists. split; [reflexivity |].
    intros state c Hc. rewrite planner_node_inv in Hc. cbv zeta in Hc.
    destruct (decide (_ ∈ _)) as [Hin | _]; [| discriminate].
    injection Hc as <-. simpl.
    destruct (String.eqb_spec
                (llm_next (SystemMessage (system_prompt m0 m1)
                           :: messages state)) "FINISH") as [Heq | Hne].
    + split; [left |]. split; [discriminate | reflexivity].
    + split; [| split; [exact Hne | reflexivity]].
      unfold options in Hin. apply elem_of_cons in Hin as [Heq | Hin];
        [contradiction |]. right. exact Hin.
Qed.

Lemma make_planner_node_members_witness :
  make_planner_node (fun _ => "FINISH") (fun _ _ => "Planner")
    ["table_agent"]
  = Raise IndexError.
Proof.
  apply (make_planner_node_members (fun _ => "FINISH")
           (fun _ _ => "Planner") ["table_agent"]).
  simpl. lia.
Defined.

(** ** Runs of the graph *)

Definition visited_of (o : outcome) : list string :=
  match o with
  | Halted _ visited | Crashed _ visited | OutOfFuel _ visited => visited
  end.

Definition is_worker (node : string) : bool :=
  String.eqb node "table_agent" || String.eqb node "analysis_agent".

(** Router and workers take turns, starting with the router when
    [expect_router] is set. *)
Fixpoint alternates (expect_router : bool) (nodes : list string) : bool :=
  match nodes with
  | [] => true
  | node :: nodes' =>
      (if expect_router then String.eqb node "router" else is_worker node)
      && alternates (negb expect_router) nodes'
  end.

(** The validator runs first and once; then router and workers take
    turns, the router first. *)
Definition turn_taking (visited : list string) : bool :=
  match visited with
  | [] => true
  | node :: nodes => String.eqb node "validator" && alternates true nodes
  end.

Section GraphRuns.
Variable llm_next : list message → string.
Variable system_prompt : string → string → string.
Variable table_agent_invoke : State → list message.
Variable analysis_agent_invoke : State → list message.
Variable TABLE_AGENT_SYSTEM_PROMPT : string.
Variable ANALYSIS_AGENT_SYSTEM_PROMPT : string.
Variable add_messages : list message → list message → list message.

Local Abbreviation step :=
  (node_step llm_next system_prompt table_agent_invoke
     analysis_agent_invoke TABLE_AGENT_SYSTEM_PROMPT
     ANALYSIS_AGENT_SYSTEM_PROMPT add_messages).
Local Abbreviation run' :=
  (run llm_next system_prompt table_agent_invoke
     analysis_agent_invoke TABLE_AGENT_SYSTEM_PROMPT
     ANALYSIS_AGENT_SYSTEM_PROMPT add_messages).
Local Abbreviation graph' :=
  (graph llm_next system_prompt table_agent_invoke
     analysis_agent_invoke TABLE_AGENT_SYSTEM_PROMPT
     ANALYSIS_AGENT_SYSTEM_PROMPT add_messages).

(** What one step of the router can do. *)
Lemma router_step s :
  (∃ msg, step "router" s = Raise (ValidationError msg)) ∨
  (∃ s' target,
     step "router" s = Return (s', target) ∧
     next s' = Some target ∧
     (target = "table_agent" ∨ target = "analysis_agent" ∨ target = END)).
Proof.
  unfold node_step. simpl. unfold answer_supervisor_node.
  rewrite planner_node_inv. cbv zeta.
  destruct (decide (_ ∈ _)) as [Hin | _]; [right | left; eauto].
  simpl. eexists _, _. split; [reflexivity |]. split; [reflexivity |].
  unfold options in Hin.
  repeat (apply elem_of_cons in Hin as [-> | Hin]);
    [right; right | left | right; left | inversion Hin]; reflexivity.
Qed.

(** What one step of a worker can do. *)
Lemma worker_step node s :
  node = "table_agent" ∨ node = "analysis_agent" →
  step node s = Raise IndexError ∨
  ∃ s', step node s = Return (s', "router").
Proof.
  unfold node_step.
  intros [-> | ->]; simpl;
    [rewrite table_agent_node_spec | rewrite analysis_node_spec];
    (destruct (last _); [right; eexists; reflexivity | left; reflexivity]).
Qed.

Definition scheduled (node : string) : Prop :=
  node = "router" ∨ node = "table_agent" ∨ node = "analysis_agent".

(** How a run may end, given the nodes [tail] it ran. *)
Definition ends (fuel : nat) (tail : list string) (o : outcome) : Prop :=
  match o with
  | Halted s' _ => last tail = Some "router" ∧ next s' = Some END
  | Crashed e _ =>
      (∃ msg, e = ValidationError msg) ∧ last tail = Some "router"
      ∨ e = IndexError ∧
        (last tail = Some "table_agent" ∨ last tail = Some "analysis_agent")
  | OutOfFuel _ _ => length tail = fuel
  end.

Lemma ends_cons fuel tail o node :
  ends fuel tail o → ends (S fuel) (node :: tail) o.
Proof.
  destruct o as [s' v | e v | s' v]; unfold ends; rewrite ?last_cons.
  - intros [-> Hnext]. auto.
  - intros [[Hmsg ->] | [He [-> | ->]]]; auto.
  - intros <-. reflexivity.
Qed.

(** The invariant of a run that starts at the router or at a worker. *)
Lemma run_invariant fuel :
  ∀ node s visited,
    scheduled node →
    ∃ tail,
      visited_of (run' fuel node s visited) = (visited ++ tail)%list ∧
      alternates (String.eqb node "router") tail = true ∧
      ends fuel tail (run' fuel node s visited).
Proof.
  induction fuel as [| fuel IH]; intros node s visited Hnode.
  - exists []. simpl. rewrite app_nil_r. auto.
  - simpl.
    destruct Hnode as [-> | Hworker].
    + destruct (router_step s) as [[msg ->] | (s' & target & -> & Hnext & Ht)].
      * exists ["router"]. simpl. split; [reflexivity |].
        split; [reflexivity |]. left. eauto.
      * destruct Ht as [-> | [-> | ->]]; simpl.
        -- destruct (IH "table_agent" s' (visited ++ ["router"])%list)
             as (tail & Hv & Halt & Hout); [right; left; reflexivity |].
           exists ("router" :: tail). rewrite Hv, <- app_assoc.
           split; [reflexivity |]. split; [exact Halt |].
           apply ends_cons. exact Hout.
        -- destruct (IH "analysis_agent" s' (visited ++ ["router"])%list)
             as (tail & Hv & Halt & Hout); [right; right; reflexivity |].
           exists ("router" :: tail). rewrite Hv, <- app_assoc.
           split; [reflexivity |]. split; [exact Halt |].
           apply ends_cons. exact Hout.
        -- exists ["router"]. simpl. split; [reflexivity |].
           split; [reflexivity |]. split; [reflexivity | exact Hnext].
    + destruct (worker_step node s Hworker) as [-> | [s' ->]].
      * exists [node]. simpl. split; [reflexivity |].
        split; [destruct Hworker as [-> | ->]; reflexivity |].
        right. split; [reflexivity |].
        destruct Hworker as [-> | ->]; auto.
      * simpl.
        destruct (IH "router" s' (visited ++ [node])%list)
          as (tail & Hv & Halt & Hout); [left; reflexivity |].
        exists (node :: tail). rewrite Hv, <- app_assoc.
        split; [reflexivity |].
        split; [destruct Hworker as [-> | ->]; exact Halt |].
        apply ends_cons. exact Hout.
Qed.

Lemma graph_start fuel input :
  graph' (S fuel) input =
  match input with
  | [] => Halted {| messages :=
                      add_messages [] [AIMessage "Please enter a question"];
                    next := Some "end" |} ["validator"]
  | _ :: _ => run' fuel "router"
                {| messages := add_messages input input;
                   next := Some "router" |} ["validator"]
  end.
Proof. destruct input; reflexivity. Qed.

(** X14. In every run of the graph, however it ends and whatever the
    model and the agents answer, the validator is the first node and runs
    once, and after it the router and the workers take turns, the router
    first: no worker runs twice in a row or before the router. *)
Theorem graph_turn_taking (fuel : nat) (input : list message) :
  turn_taking (visited_of (graph' fuel input)) = true.
Proof.
  destruct fuel as [| fuel]; [reflexivity |]. rewrite graph_start.
  destruct input as [| m ms]; [reflexivity |].
  destruct (run_invariant fuel "router"
              {| messages := add_messages (m :: ms) (m :: ms);
                 next := Some "router" |} ["validator"])
    as (tail & -> & Halt & _); [left; reflexivity |].
  exact Halt.
Qed.

(** X15. A run of the graph that halts does so either right after the
    validator, on an empty input, with next = "end", or right after the
    router, on a non-empty input, with next = "__end__"; it never halts
    right after a worker. *)
Theorem graph_halts_after (fuel : nat) (input : list message)
    (final : State) (visited : list string) :
  graph' fuel input = Halted final visited →
  input = [] ∧ visited = ["validator"] ∧ next final = Some "end"
  ∨ input ≠ [] ∧ last visited = Some "router" ∧ next final = Some END.
Proof.
  destruct fuel as [| fuel]; [discriminate |]. rewrite graph_start.
  destruct input as [| m ms].
  - intros H. injection H as <- <-. left. auto.
  - intros H. right. split; [discriminate |].
    destruct (run_invariant fuel "router"
                {| messages := add_messages (m :: ms) (m :: ms);
                   next := Some "router" |} ["validator"])
      as (tail & Hv & _ & Hends); [left; reflexivity |].
    rewrite H in Hv, Hends. simpl in Hv, Hends. subst visited.
    destruct Hends as [Hlast Hnext]. split; [| exact Hnext].
    simpl app. rewrite last_cons, Hlast. reflexivity.
Qed.



End GraphRuns.

(** Scripted stand-ins for the model and the agents. *)
Definition echo_agent (s : State) : list message :=
  (messages s ++ [AIMessage "{}"])%list.


Definition question : list message :=
  [{| msg_role := HumanRole; content := "Who lives in LA?"; name := None |}].

Lemma graph_halts_after_witness :
  question = [] ∧ ["validator"; "router"] = ["validator"] ∧
  next {| messages := (question ++ question)%list; next := Some END |}
  = Some "end"
  ∨ question ≠ [] ∧ last ["validator"; "router"] = Some "router" ∧
    next {| messages := (question ++ question)%list; next := Some END |}
    = Some END.
Proof.
  apply (graph_halts_after (fun _ => "FINISH") (fun _ _ => "Planner")
           echo_agent echo_agent "Table agent" "Analysis agent" app
           2 question).
  reflexivity.
Defined.



(** * Further properties of the retrieval methods and the cache build *)

Lemma collect_table_uids_spec docs table_uids :
  collect_table_uids docs table_uids
  = (table_uids ++ (page_content <$> docs))%list.
Proof.
  revert table_uids. induction docs as [| doc docs IH]; intros table_uids.
  - simpl. rewrite app_nil_r. reflexivity.
  - simpl. rewrite IH, <- app_assoc. reflexivity.
Qed.

(** X18. [retrieve_tables] never fails and returns, under "table uids",
    the page content of every document the retriever ranked, one per
    document and in the retriever's order. *)
Theorem retrieve_tables_order (storage : Retrieval) (query : string) :
  ∃ table_uids,
    retrieve_tables storage query
    = Return [("ok", VBool true);
              ("table uids", VItems (Text <$> table_uids))] ∧
    length table_uids = length (table_retriever storage query) ∧
    ∀ (i : nat) doc,
      table_retriever storage query !! i = Some doc →
      table_uids !! i = Some (page_content doc).
Proof.
  exists (page_content <$> table_retriever storage query).
  split; [| split].
  - unfold retrieve_tables, Storage_retrieve_tables.
    rewrite collect_table_uids_spec. reflexivity.
  - apply length_fmap.
  - intros i doc Hdoc. rewrite list_lookup_fmap, Hdoc. reflexivity.
Qed.

Lemma collect_passages_found (store : gmap string string) docs texts acc :
  Forall2 (fun doc text => store !! page_content doc = Some text)
          docs texts →
  collect_passages store docs acc = Return (acc ++ texts)%list.
Proof.
  intros Hall. revert acc.
  induction Hall as [| doc text docs texts Hdoc _ IH]; intros acc; simpl.
  - rewrite app_nil_r. reflexivity.
  - rewrite Hdoc, IH, <- app_assoc. reflexivity.
Qed.

Lemma collect_passages_missing (store : gmap string string) docs acc :
  ¬ Forall (fun doc => is_Some (store !! page_content doc)) docs →
  ∃ doc, doc ∈ docs ∧ store !! page_content doc = None ∧
         collect_passages store docs acc
         = Raise (KeyError (page_content doc)).
Proof.
  revert acc. induction docs as [| doc docs IH]; intros acc Hnot.
  - destruct Hnot. constructor.
  - simpl. destruct (store !! page_content doc) as [text |] eqn:Hdoc.
    + destruct (IH (acc ++ [text])%list) as (doc' & Hin & Hnone & Hraise).
      { intros Hall. apply Hnot. constructor; [rewrite Hdoc; eauto |].
        exact Hall. }
      exists doc'. split; [right; exact Hin |]. split; assumption.
    + exists doc. split; [left |]. split; [exact Hdoc | reflexivity].
Qed.

Lemma passages_found (store : gmap string string) docs :
  Forall (fun doc => is_Some (store !! page_content doc)) docs →
  ∃ texts,
    Forall2 (fun doc text => store !! page_content doc = Some text)
            docs texts.
Proof.
  induction 1 as [| doc docs [text Hdoc] _ [texts IH]].
  - exists []. constructor.
  - exists (text :: texts). constructor; assumption.
Qed.

(** X19. [retrieve_wiki_passages] returns the success mapping, with the
    stored text of every retrieved document in the retriever's order,
    when the passage store has a text for every retrieved key; otherwise
    it raises KeyError for a retrieved key that the store lacks. The tool
    has no handler, so the KeyError is not turned into a failure
    mapping. *)
Theorem retrieve_wiki_passages_keys (storage : Retrieval) (query : string) :
  (Forall (fun doc => is_Some (passages storage !! page_content doc))
          (wiki_retriever storage query) →
   ∃ texts,
     Forall2 (fun doc text =>
                passages storage !! page_content doc = Some text)
             (wiki_retriever storage query) texts ∧
     retrieve_wiki_passages storage query
     = Return [("ok", VBool true);
               ("passages texts", VItems (Text <$> texts))]) ∧
  (¬ Forall (fun doc => is_Some (passages storage !! page_content doc))
            (wiki_retriever storage query) →
   ∃ doc,
     doc ∈ wiki_retriever storage query ∧
     passages storage !! page_content doc = None ∧
     retrieve_wiki_passages storage query
     = Raise (KeyError (page_content doc))).
Proof.
  unfold retrieve_wiki_passages, Storage_retrieve_wiki_passages. split.
  - intros Hall. destruct (passages_found _ _ Hall) as [texts Htexts].
    exists texts. split; [exact Htexts |].
    rewrite (collect_passages_found _ _ texts) by exact Htexts. reflexivity.
  - intros Hnot.
    destruct (collect_passages_missing (passages storage) _ [] Hnot)
      as (doc & Hin & Hnone & Hraise).
    exists doc. split; [exact Hin |]. split; [exact Hnone |].
    cbv zeta. rewrite Hraise. reflexivity.
Qed.

Definition wiki_example : Retrieval :=
  {| passages := {[ "/wiki/LA" := "Los Angeles is a city." ]};
     table_retriever := fun _ => [{| page_content := "T1" |}];
     wiki_retriever := fun _ => [{| page_content := "/wiki/LA" |};
                                 {| page_content := "/wiki/NYC" |}] |}.

Lemma retrieve_wiki_passages_keys_witness :
  ∃ doc,
    doc ∈ wiki_retriever wiki_example "cities" ∧
    passages wiki_example !! page_content doc = None ∧
    retrieve_wiki_passages wiki_example "cities"
    = Raise (KeyError (page_content doc)).
Proof.
  apply (retrieve_wiki_passages_keys wiki_example "cities").
  apply (bool_decide_unpack _). vm_compute. reflexivity.
Defined.

(** ** Building the table registry and the passage store *)

Section Registry.
Variable stem : string → string.

Lemma register_tables_spec listing :
  ∀ (tables : gmap string string) (table_uids : gset string),
    (register_tables stem listing tables table_uids).2
    = list_to_set (stem <$> listing) ∪ table_uids ∧
    ∀ uid,
      (register_tables stem listing tables table_uids).1 !! uid
      = match last (filter (fun path => stem path = uid) listing) with
        | Some path => Some path
        | None => tables !! uid
        end.
Proof.
  induction listing as [| path listing IH]; intros tables table_uids.
  - simpl. split; [symmetry; apply union_empty_l_L | reflexivity].
  - simpl. destruct (IH (<[stem path := path]> tables)
                        ({[stem path]} ∪ table_uids)) as [Huids Hlookup].
    split.
    { rewrite Huids. apply set_eq. intros uid.
      rewrite !elem_of_union. tauto. }
    intros uid. rewrite Hlookup, filter_cons.
    destruct (decide (stem path = uid)) as [<- | Hne].
    + rewrite last_cons, lookup_insert_eq.
      destruct (last _); reflexivity.
    + rewrite lookup_insert_ne by exact Hne. reflexivity.
Qed.

Lemma registered_last listing before path after :
  listing = (before ++ path :: after)%list →
  stem path ∉ stem <$> after →
  last (filter (fun p => stem p = stem path) listing) = Some path.
Proof.
  intros -> Hafter. rewrite filter_app, filter_cons.
  destruct (decide (stem path = stem path)) as [_ | Hne]; [| contradiction].
  replace (filter (fun p => stem p = stem path) after) with (@nil string).
  - apply last_snoc.
  - symmetry. induction after as [| q after IH]; [reflexivity |].
    rewrite filter_cons. rewrite fmap_cons in Hafter.
    apply not_elem_of_cons in Hafter as [Hq Hafter].
    destruct (decide (stem q = stem path)); [congruence | apply IH, Hafter].
Qed.

(** X20. Started on an empty registry, [_create_table_vectorstore]
    hands the vector store exactly the stems of the listed paths, which
    are exactly the keys of [self.tables]; every registered uid maps to a
    listed path with that stem, and when several listed paths share a
    stem the one listed last is the one registered. *)
Theorem create_table_vectorstore_registers (listing : list string) :
  let built := _create_table_vectorstore stem listing ∅ in
  built.2 = list_to_set (stem <$> listing) ∧
  dom built.1 = built.2 ∧
  (∀ uid path, built.1 !! uid = Some path →
               path ∈ listing ∧ stem path = uid) ∧
  (∀ before path after,
     listing = (before ++ path :: after)%list →
     stem path ∉ stem <$> after →
     built.1 !! stem path = Some path).
Proof.
  unfold _create_table_vectorstore.
  destruct (register_tables_spec listing ∅ ∅) as [Huids Hlookup].
  assert (Hfound : ∀ uid path,
            (register_tables stem listing ∅ ∅).1 !! uid = Some path →
            path ∈ listing ∧ stem path = uid).
  { intros uid path Hp. rewrite Hlookup in Hp.
    destruct (last _) as [q |] eqn:Hlast; [| rewrite lookup_empty in Hp];
      [| discriminate].
    injection Hp as ->. apply last_Some_elem_of, list_elem_of_filter in Hlast.
    destruct Hlast as [Hstem Hin]. auto. }
  cbv zeta. split; [rewrite Huids; apply union_empty_r_L |].
  split; [| split; [exact Hfound |]].
  - rewrite Huids. apply set_eq. intros uid.
    rewrite elem_of_dom, elem_of_union, elem_of_list_to_set,
      list_elem_of_fmap.
    split.
    + intros [path Hp]. left. destruct (Hfound uid path Hp) as [Hin <-].
      eauto.
    + intros [(path & -> & Hin) | Hempty];
        [| destruct (not_elem_of_empty (C := gset string) uid Hempty)].
      rewrite Hlookup.
      destruct (last _) as [q |] eqn:Hlast; [eauto |].
      apply last_None in Hlast.
      assert (Hp : path ∈ filter (fun p => stem p = stem path) listing).
      { apply list_elem_of_filter. auto. }
      rewrite Hlast in Hp. inversion Hp.
  - intros before path after Hsplit Hafter. rewrite Hlookup.
    rewrite (registered_last listing before path after Hsplit Hafter).
    reflexivity.
Qed.

(** X21. When the listed paths have pairwise distinct stems, the store
    built from the listing answers [get_table] for the stem of every
    listed, readable file with the content of that very file, and raises
    the table-not-found ValueError for every uid that is not the stem of a
    listed path. *)
Theorem get_table_after_registration (listing : list string)
    (contents : gmap string Table) :
  NoDup (stem <$> listing) →
  let storage :=
    {| tables := (_create_table_vectorstore stem listing ∅).1;
       files := contents |} in
  (∀ path table,
     path ∈ listing → contents !! path = Some table →
     get_table storage (stem path) = Return table) ∧
  (∀ uid,
     uid ∉ stem <$> listing →
     get_table storage uid = Raise (ValueError (table_not_found uid))).
Proof.
  intros Hdistinct. cbv zeta. unfold _create_table_vectorstore, get_table.
  destruct (register_tables_spec listing ∅ ∅) as [_ Hlookup]. simpl. split.
  - intros path table Hin Hfile.
    destruct (list_elem_of_split _ _ Hin) as (before & after & Hsplit).
    rewrite Hlookup.
    rewrite (registered_last listing before path after Hsplit).
    + rewrite Hfile. reflexivity.
    + rewrite Hsplit, fmap_app, fmap_cons in Hdistinct.
      apply NoDup_app in Hdistinct as (_ & _ & Hdistinct).
      apply NoDup_cons in Hdistinct as [Hnot _]. exact Hnot.
  - intros uid Hnot. rewrite Hlookup.
    destruct (last _) as [q |] eqn:Hlast; [| rewrite lookup_empty];
      [| reflexivity].
    exfalso. apply Hnot.
    apply last_Some_elem_of, list_elem_of_filter in Hlast as [<- Hin].
    apply list_elem_of_fmap. eauto.
Qed.
End Registry.

(** The stems of the two files of a small listing. *)
Definition T2_path : string := "data/hybrid_qa/tables_tok/T2.json".

Definition listed_stem (path : string) : string :=
  if String.eqb path T1_path then "T1"
  else if String.eqb path T2_path then "T2"
  else path.

Lemma create_table_vectorstore_registers_witness :
  (_create_table_vectorstore listed_stem [T1_path; T2_path] ∅).1 !! "T1"
  = Some T1_path.
Proof.
  destruct (create_table_vectorstore_registers listed_stem
              [T1_path; T2_path]) as (_ & _ & _ & Hlast).
  apply (Hlast [] T1_path [T2_path]).
  - reflexivity.
  - apply (bool_decide_unpack _). vm_compute. reflexivity.
Defined.

Lemma get_table_after_registration_witness :
  get_table
    {| tables :=
         (_create_table_vectorstore listed_stem [T1_path; T2_path] ∅).1;
       files := {[ T1_path := T1 ]} |} "T1"
  = Return T1.
Proof.
  destruct (get_table_after_registration listed_stem [T1_path; T2_path]
              {[ T1_path := T1 ]}) as [Hfound _].
  - apply (bool_decide_unpack _). vm_compute. reflexivity.
  - apply (Hfound T1_path T1).
    + apply (bool_decide_unpack _). vm_compute. reflexivity.
    + reflexivity.
Defined.

Lemma update_passages_lookup loaded :
  ∀ (store : gmap string string) key,
    update_passages loaded store !! key
    = match last (omap (fun file_passages : gmap string string =>
                          file_passages !! key) loaded) with
      | Some text => Some text
      | None => store !! key
      end.
Proof.
  induction loaded as [| file_passages loaded IH]; intros store key.
  - reflexivity.
  - simpl. rewrite IH.
    destruct (file_passages !! key) as [text |] eqn:Hkey.
    + rewrite last_cons.
      rewrite (lookup_union_Some_l file_passages store key text Hkey).
      destruct (last _); reflexivity.
    + rewrite lookup_union_r by exact Hkey. reflexivity.
Qed.

Lemma later_files_without (after : list (gmap string string))
    (key : string) :
  Forall (fun later : gmap string string => later !! key = None) after →
  omap (fun file_passages : gmap string string => file_passages !! key)
       after = [].
Proof.
  induction 1 as [| later after Hlater _ IH]; [reflexivity |].
  simpl. rewrite Hlater. exact IH.
Qed.

(** X22. After [_create_wiki_vectorstore] the passage store holds, for
    each key, the text of the last loaded file that has the key, and the
    keys handed to the vector store are exactly the keys of the passage
    store; so with a retriever that returns only such keys,
    [retrieve_wiki_passages] returns a success mapping with one text per
    retrieved document and cannot raise KeyError. *)
Theorem create_wiki_vectorstore_serves
    (loaded : list (gmap string string)) :
  let built := _create_wiki_vectorstore loaded in
  (∀ before file_passages after key text,
     loaded = (before ++ file_passages :: after)%list →
     file_passages !! key = Some text →
     Forall (fun later : gmap string string => later !! key = None) after →
     built.1 !! key = Some text) ∧
  (∀ key, key ∈ built.2 ↔
          ∃ file_passages : gmap string string,
            file_passages ∈ loaded ∧ is_Some (file_passages !! key)) ∧
  (∀ table_retriever wiki_retriever query,
     Forall (fun doc => page_content doc ∈ built.2) (wiki_retriever query) →
     ∃ texts,
       retrieve_wiki_passages
         {| passages := built.1;
            table_retriever := table_retriever;
            wiki_retriever := wiki_retriever |} query
       = Return [("ok", VBool true);
                 ("passages texts", VItems (Text <$> texts))] ∧
       length texts = length (wiki_retriever query)).
Proof.
  unfold _create_wiki_vectorstore. cbv zeta. simpl. split; [| split].
  - intros before file_passages after key text -> Hkey Hafter.
    rewrite update_passages_lookup, omap_app.
    match goal with
    | |- context [omap ?f (file_passages :: after)] =>
        replace (omap f (file_passages :: after)) with [text]
    end.
    + rewrite last_snoc. reflexivity.
    + simpl. rewrite Hkey. f_equal. symmetry.
      exact (later_files_without after key Hafter).
  - intros key. rewrite elem_of_dom, update_passages_lookup, lookup_empty.
    split.
    + intros [text Htext].
      destruct (last _) as [text' |] eqn:Hlast; [| discriminate].
      apply last_Some_elem_of, list_elem_of_omap in Hlast
        as (file_passages & Hin & Hkey).
      exists file_passages. split; [exact Hin | eauto].
    + intros (file_passages & Hin & [text Hkey]).
      destruct (last _) as [text' |] eqn:Hlast; [eauto |].
      apply last_None in Hlast.
      exfalso. apply (not_elem_of_nil text). rewrite <- Hlast.
      apply list_elem_of_omap. eauto.
  - intros table_retriever wiki_retriever query Hkeys.
    unfold retrieve_wiki_passages, Storage_retrieve_wiki_passages. simpl.
    destruct (passages_found (update_passages loaded ∅)
                (wiki_retriever query)) as [texts Htexts].
    { eapply Forall_impl; [exact Hkeys |]. intros doc Hdoc.
      apply elem_of_dom. exact Hdoc. }
    exists texts.
    rewrite (collect_passages_found _ _ texts) by exact Htexts.
    split; [reflexivity |]. symmetry. exact (Forall2_length _ _ _ Htexts).
Qed.

Lemma create_wiki_vectorstore_serves_witness :
  (_create_wiki_vectorstore
     [{[ "/wiki/LA" := "Los Angeles" ]};
      {[ "/wiki/LA" := "Los Angeles is a city." ]}]).1 !! "/wiki/LA"
  = Some "Los Angeles is a city.".
Proof.
  destruct (create_wiki_vectorstore_serves
              [{[ "/wiki/LA" := "Los Angeles" ]};
               {[ "/wiki/LA" := "Los Angeles is a city." ]}])
    as [Hlast _].
  apply (Hlast [{[ "/wiki/LA" := "Los Angeles" ]}]
           {[ "/wiki/LA" := "Los Angeles is a city." ]} []).
  - reflexivity.
  - reflexivity.
  - constructor.
Defined.

(** * The metadata names the columns that can be read *)

Lemma get_column_succeeds (storage : Storage) (table_uid : string)
    (table : Table) (column_name : string) :
  get_table storage table_uid = Return table →
  table_wf table →
  has_column table column_name →
  ∃ cells,
    get_column storage table_uid column_name
    = Return [("ok", VBool true); ("cells", VItems cells)].
Proof.
  intros Hget [Hheader Hrows] Hcol.
  destruct (column_index_has_column table column_name Hheader Hcol)
    as (j & Hj & Hlt).
  destruct (comprehension_succeeds (fun row => cell_text row j) (data table))
    as [cells Hcells].
  { eapply Forall_impl; [exact Hrows |]. intros row Hrow.
    destruct (cell_text_wf table row j Hrow Hlt) as (x & _ & Hx). eauto. }
  exists cells. unfold get_column. rewrite Hget. simpl.
  rewrite get_column_index_wf by exact Hheader. rewrite Hj. simpl.
  rewrite Hcells. reflexivity.
Qed.

(** X23. On a stored, well-formed table, [get_table_metadata] returns
    the title, one column entry per header entry (in header order) and
    the number of rows, and [get_column] succeeds for exactly the column
    names that this "columns" list holds. *)
Theorem metadata_lists_readable_columns (storage : Storage)
    (table_uid : string) (table : Table) :
  get_table storage table_uid = Return table →
  table_wf table →
  ∃ names,
    get_table_metadata storage table_uid
    = Return [("ok", VBool true);
              ("table title", VStr (title table));
              ("columns", VItems names);
              ("num rows", VInt (Z.of_nat (length (data table))))] ∧
    length names = length (header table) ∧
    (∀ (i : nat) entry, header table !! i = Some entry →
                        names !! i = head entry) ∧
    ∀ column_name,
      Text column_name ∈ names ↔
      ∃ cells,
        get_column storage table_uid column_name
        = Return [("ok", VBool true); ("cells", VItems cells)].
Proof.
  intros Hget Hwf. pose proof Hwf as [Hheader _].
  exists (columns table). split; [| split; [| split]].
  - unfold get_table_metadata. rewrite Hget. simpl.
    rewrite header_names_wf by exact Hheader. reflexivity.
  - apply heads_length. exact Hheader.
  - intros i entry Hentry. unfold columns.
    rewrite heads_lookup by exact Hheader. rewrite Hentry. reflexivity.
  - intros column_name. split.
    + intros Hcol.
      exact (get_column_succeeds storage table_uid table column_name
               Hget Hwf Hcol).
    + intros [cells Hcells].
      destruct (decide (has_column table column_name)) as [Hcol | Hmissing];
        [exact Hcol |].
      exfalso. unfold get_column in Hcells. rewrite Hget in Hcells.
      simpl in Hcells.
      rewrite get_column_index_wf in Hcells by exact Hheader.
      unfold column_index in Hcells.
      rewrite first_index_missing in Hcells by exact Hmissing.
      discriminate.
Qed.

Lemma metadata_lists_readable_columns_witness :
  ∃ names,
    get_table_metadata T1_storage "T1"
    = Return [("ok", VBool true);
              ("table title", VStr (title T1));
              ("columns", VItems names);
              ("num rows", VInt (Z.of_nat (length (data T1))))] ∧
    length names = length (header T1) ∧
    (∀ (i : nat) entry, header T1 !! i = Some entry →
                        names !! i = head entry) ∧
    ∀ column_name,
      Text column_name ∈ names ↔
      ∃ cells,
        get_column T1_storage "T1" column_name
        = Return [("ok", VBool true); ("cells", VItems cells)].
Proof.
  apply (metadata_lists_readable_columns T1_storage "T1" T1).
  - reflexivity.
  - exact T1_wf.
Defined.
